(** * neon_speech: the speech service's bus handlers

    A shallow embedding of [neon_speech/__main__.py]: the handlers that
    turn audio into transcripts, publish utterances to the skills module
    and drive the listener's mute state.  Python values are a small
    universe [pyval]; the collaborators the module talks to (message bus,
    STT engines, audio decoder, file system, listener loop, clock) are
    oracles collected in a [World]; every call on a collaborator is
    recorded, in program order, in a trace of [event]s. *)

From Stdlib Require Import List String Ascii ZArith Bool Lia DecimalString.
Import ListNotations.
Open Scope string_scope.

Set Implicit Arguments.
Set Warnings "-register-all".

(* ------------------------------------------------------------------ *)
(** ** Python values                                                    *)
(* ------------------------------------------------------------------ *)

(** The values that travel in message payloads.  A [PFloat] is carried by
    its [repr] (only [time.time()] produces floats here); a [PObj] is an
    object of a collaborator ([AudioData], ...), opaque to this module.
    Dictionaries keep insertion order, as Python's do. *)
Inductive pyval : Type :=
| PNone
| PBool (b : bool)
| PInt (z : Z)
| PFloat (digits : string)
| PStr (s : string)
| PList (l : list pyval)
| PDict (d : list (string * pyval))
| PObj (name : string).

Definition dict : Type := list (string * pyval).

Definition float_is_zero (digits : string) : bool :=
  (digits =? "0.0") || (digits =? "-0.0").

(** Python truth value testing ([if v], [not v], [a or b]). *)
Definition truthy (v : pyval) : bool :=
  match v with
  | PNone => false
  | PBool b => b
  | PInt z => negb (z =? 0)%Z
  | PFloat r => negb (float_is_zero r)
  | PStr s => negb (s =? EmptyString)
  | PList l => match l with [] => false | _ :: _ => true end
  | PDict d => match d with [] => false | _ :: _ => true end
  | PObj _ => true
  end.

(** [a or b] *)
Definition py_or (a b : pyval) : pyval := if truthy a then a else b.

(** [v == "s"] for a string literal [s]. *)
Definition eq_str (v : pyval) (s : string) : bool :=
  match v with PStr t => t =? s | _ => false end.

(** *** [str] and [repr] *)

Definition squote : ascii := ascii_of_nat 39.
Definition dquote : ascii := ascii_of_nat 34.
Definition backslash : ascii := ascii_of_nat 92.

Fixpoint has_char (c : ascii) (s : string) : bool :=
  match s with
  | EmptyString => false
  | String a r => Ascii.eqb a c || has_char c r
  end.

Definition hex_digit (n : nat) : ascii :=
  nth n ["0"; "1"; "2"; "3"; "4"; "5"; "6"; "7"; "8"; "9";
         "a"; "b"; "c"; "d"; "e"; "f"]%char "0"%char.

(** What [repr] writes for one character of a [str] quoted by [q]: the
    backslash and the quote are escaped, tab, newline and carriage return
    have their letters, the other control characters are written
    [\xhh]. *)
Definition escape_char (q a : ascii) : string :=
  let n := nat_of_ascii a in
  if Ascii.eqb a backslash || Ascii.eqb a q
  then String backslash (String a EmptyString)
  else if Nat.eqb n 9 then String backslash (String "t" EmptyString)
  else if Nat.eqb n 10 then String backslash (String "n" EmptyString)
  else if Nat.eqb n 13 then String backslash (String "r" EmptyString)
  else if Nat.ltb n 32 || Nat.eqb n 127
  then String backslash
         (String "x"
            (String (hex_digit (Nat.div n 16))
               (String (hex_digit (Nat.modulo n 16)) EmptyString)))
  else String a EmptyString.

Fixpoint escape (q : ascii) (s : string) : string :=
  match s with
  | EmptyString => EmptyString
  | String a r => String.append (escape_char q a) (escape q r)
  end.

(** [repr] of a [str]: single quotes, unless the text has a single quote
    and no double quote. *)
Definition repr_str (s : string) : string :=
  let q := if has_char squote s && negb (has_char dquote s)
           then dquote else squote in
  String q (escape q s ++ String q EmptyString).

Definition string_of_Z (z : Z) : string := NilZero.string_of_int (Z.to_int z).

Fixpoint py_repr (v : pyval) : string :=
  match v with
  | PNone => "None"
  | PBool true => "True"
  | PBool false => "False"
  | PInt z => string_of_Z z
  | PFloat r => r
  | PStr s => repr_str s
  | PList l =>
      "[" ++ (fix items (l : list pyval) : string :=
                match l with
                | [] => EmptyString
                | x :: r =>
                    match r with
                    | [] => py_repr x
                    | _ :: _ => py_repr x ++ ", " ++ items r
                    end
                end) l ++ "]"
  | PDict d =>
      "{" ++ (fix items (d : list (string * pyval)) : string :=
                match d with
                | [] => EmptyString
                | (k, x) :: r =>
                    match r with
                    | [] => repr_str k ++ ": " ++ py_repr x
                    | _ :: _ => repr_str k ++ ": " ++ py_repr x ++ ", " ++ items r
                    end
                end) d ++ "}"
  | PObj n => n
  end.

(** [str(v)], also what an f-string field [{v}] renders. *)
Definition py_str (v : pyval) : string :=
  match v with
  | PStr s => s
  | _ => py_repr v
  end.

(** *** Dictionaries *)

Fixpoint dict_lookup (d : dict) (k : string) : option pyval :=
  match d with
  | [] => None
  | (k', v) :: r => if k' =? k then Some v else dict_lookup r k
  end.

(** [k in d] *)
Definition dict_has (d : dict) (k : string) : bool :=
  match dict_lookup d k with Some _ => true | None => false end.

(** [d.get(k, dflt)] *)
Definition dict_get_default (d : dict) (k : string) (dflt : pyval) : pyval :=
  match dict_lookup d k with Some v => v | None => dflt end.

(** [d.get(k)] *)
Definition dict_get (d : dict) (k : string) : pyval := dict_get_default d k PNone.

(** [d[k] = v]: an existing key keeps its place, a new one goes last. *)
Fixpoint dict_set (d : dict) (k : string) (v : pyval) : dict :=
  match d with
  | [] => [(k, v)]
  | (k', v') :: r => if k' =? k then (k, v) :: r else (k', v') :: dict_set r k v
  end.

Fixpoint dict_remove (d : dict) (k : string) : dict :=
  match d with
  | [] => []
  | (k', v') :: r => if k' =? k then r else (k', v') :: dict_remove r k
  end.

(** [d.pop(k, dflt)]: the value and the dictionary left behind. *)
Definition dict_pop_default (d : dict) (k : string) (dflt : pyval) : pyval * dict :=
  (dict_get_default d k dflt, dict_remove d k).

(* ------------------------------------------------------------------ *)
(** ** Exceptions                                                       *)
(* ------------------------------------------------------------------ *)

(** The classes the handlers tell apart, the rest of [Exception] by name,
    and what lies outside [Exception] ([KeyboardInterrupt], ...). *)
Inductive exn_class : Type :=
| EOFError
| TypeError
| KeyError
| AttributeError
| IndexError
| OtherException (name : string)
| NonException (name : string).

Record exn : Type := mkExn { exn_cls : exn_class; exn_args : list pyval }.

Definition class_name (c : exn_class) : string :=
  match c with
  | EOFError => "EOFError"
  | TypeError => "TypeError"
  | KeyError => "KeyError"
  | AttributeError => "AttributeError"
  | IndexError => "IndexError"
  | OtherException n => n
  | NonException n => n
  end.

(** [except EOFError] *)
Definition is_EOFError (e : exn) : bool :=
  match exn_cls e with EOFError => true | _ => false end.

(** [except TypeError] *)
Definition is_TypeError (e : exn) : bool :=
  match exn_cls e with TypeError => true | _ => false end.

(** [except Exception] *)
Definition is_Exception (e : exn) : bool :=
  match exn_cls e with NonException _ => false | _ => true end.

Fixpoint join_reprs (l : list pyval) : string :=
  match l with
  | [] => EmptyString
  | x :: r =>
      match r with
      | [] => py_repr x
      | _ :: _ => py_repr x ++ ", " ++ join_reprs r
      end
  end.

(** [OSError] and the classes the interpreter derives from it.  An
    exception is held as its class and the arguments it was made with;
    these classes keep a file name apart from [args]. *)
Definition os_error_names : list string :=
  ["OSError"; "BlockingIOError"; "ChildProcessError"; "ConnectionError";
   "BrokenPipeError"; "ConnectionAbortedError"; "ConnectionRefusedError";
   "ConnectionResetError"; "FileExistsError"; "FileNotFoundError";
   "InterruptedError"; "IsADirectoryError"; "NotADirectoryError";
   "PermissionError"; "ProcessLookupError"; "TimeoutError"]%string.

Definition is_OSError (c : exn_class) : bool :=
  match c with
  | OtherException n => existsb (String.eqb n) os_error_names
  | _ => false
  end.

(** An [OSError] made with two to five arguments has an errno and a
    message. *)
Definition has_errno (e : exn) : bool :=
  is_OSError (exn_cls e)
  && Nat.leb 2 (List.length (exn_args e))
  && Nat.leb (List.length (exn_args e)) 5.

(** The file name such an exception keeps: its third argument, unless
    it is [None] or, for a [BlockingIOError], a number (the characters
    written). *)
Definition os_filename (e : exn) : option pyval :=
  if has_errno e then
    match exn_args e with
    | _ :: _ :: f :: _ =>
        match f, exn_cls e with
        | PNone, _ => None
        | (PInt _ | PFloat _ | PBool _), OtherException "BlockingIOError" => None
        | _, _ => Some f
        end
    | _ => None
    end
  else None.

(** The second file name: the fifth argument, when there is a first. *)
Definition os_filename2 (e : exn) : option pyval :=
  match os_filename e, exn_args e with
  | Some _, [_; _; _; _; PNone] => None
  | Some _, [_; _; _; _; g] => Some g
  | _, _ => None
  end.

(** [e.args]: what the exception was made with; a file name that is
    kept apart leaves the errno and the message. *)
Definition args_of (e : exn) : list pyval :=
  match os_filename e with
  | Some _ => firstn 2 (exn_args e)
  | None => exn_args e
  end.

(** [repr(e)] *)
Definition repr_exn (e : exn) : string :=
  class_name (exn_cls e) ++ "(" ++ join_reprs (args_of e) ++ ")".

(** [str(e)]; a [KeyError] shows the [repr] of its key, an [OSError]
    with an errno shows [[Errno n] message] and its file names. *)
Definition str_exn (e : exn) : string :=
  if has_errno e then
    match exn_args e with
    | n :: m :: _ =>
        "[Errno " ++ py_str n ++ "] " ++ py_str m
          ++ match os_filename e with
             | Some f =>
                 ": " ++ py_repr f
                   ++ match os_filename2 e with
                      | Some g => " -> " ++ py_repr g
                      | None => EmptyString
                      end
             | None => EmptyString
             end
    | _ => EmptyString
    end
  else
    match exn_args e with
    | [] => EmptyString
    | [a] => match exn_cls e with KeyError => py_repr a | _ => py_str a end
    | _ => "(" ++ join_reprs (exn_args e) ++ ")"
    end.

Definition key_error (k : string) : exn := mkExn KeyError [PStr k].
Definition type_error (m : string) : exn := mkExn TypeError [PStr m].
Definition attribute_error (m : string) : exn := mkExn AttributeError [PStr m].
Definition index_error (m : string) : exn := mkExn IndexError [PStr m].

(** The name Python prints for the type of a value. *)
Definition type_name (v : pyval) : string :=
  match v with
  | PNone => "NoneType"
  | PBool _ => "bool"
  | PInt _ => "int"
  | PFloat _ => "float"
  | PStr _ => "str"
  | PList _ => "list"
  | PDict _ => "dict"
  | PObj n => n
  end.

(* ------------------------------------------------------------------ *)
(** ** Messages, events and the world                                   *)
(* ------------------------------------------------------------------ *)

(** [Message(msg_type, data, context)] *)
Record bus_message : Type := Message
  { msg_type : string; msg_data : dict; msg_context : dict }.

(** What is handed to [bus.emit]: a message built here, or
    [message.reply(msg_type, data=...)], whose routing the bus library
    derives from the message replied to. *)
Inductive out_message : Type :=
| New (m : bus_message)
| Reply (to : bus_message) (reply_type : pyval) (data : dict).

Inductive log_level : Type := LDebug | LInfo | LWarning | LError.

(** One entry per call on a collaborator. *)
Inductive event : Type :=
| EvLog (lvl : log_level) (text : string)          (* LOG.debug/info/warning/error *)
| EvEmit (m : out_message)                         (* bus.emit *)
| EvWaitForResponse (m : bus_message) (timeout : Z)    (* bus.wait_for_response *)
| EvIsFile (path : pyval)                          (* os.path.isfile *)
| EvDecode (path : pyval)                          (* AudioSegment.from_file, AudioData *)
| EvOpenStream (path : pyval)                      (* get_audio_file_stream *)
| EvRead (size : Z)                                (* audio_stream.read *)
| EvAcquire                                        (* lock.__enter__ *)
| EvRelease                                        (* lock.__exit__ *)
| EvStreamStart (lang : pyval)                     (* API_STT.stream_start *)
| EvStreamData (chunk : pyval)                     (* API_STT.stream_data *)
| EvStreamStop                                     (* API_STT.stream_stop *)
| EvTranscribe (audio lang : pyval)                (* loop.consumer.transcribe *)
| EvGetContext (audio : pyval)                     (* audio_consumers.get_context *)
| EvMute                                           (* loop.mute *)
| EvUnmute                                         (* loop.unmute *)
| EvTime                                           (* time.time *)
| EvUpdateProfile (nick : pyval)                   (* update_profile_for_nick *)
| EvGetProfile (nick : pyval)                      (* get_profile *)
| EvGetNickProfiles (nicks : pyval).               (* get_nick_profiles *)

Definition trace : Type := list event.

(** What a call on a collaborator does: return or raise. *)
Inductive result (A : Type) : Type :=
| Returns (a : A)
| Raises (e : exn).
Arguments Raises {A} e.

(** The collaborators, taken as parameters: the bus client, the file
    system, the audio decoder and [get_audio_file_stream] are libraries;
    the engines, the context extractor and the chat user database belong
    to other modules of the package ([neon_speech.stt], [.listener],
    [.plugins]).  Each answer may depend on everything that happened
    before the call (the trace so far) and on the arguments, and each
    call may raise. *)
Record World : Type := mkWorld
  { (* module globals set by [main] *)
    API_STT : bool;                                  (* is API_STT set? *)
    config : dict;
    (* message bus *)
    wait_for_response : trace -> bus_message -> Z -> result (option bus_message);
    str_message : bus_message -> string;
    (* file system and audio decoding *)
    isfile : trace -> pyval -> result bool;
    decode : trace -> pyval -> result pyval;
    get_audio_file_stream : trace -> pyval -> result unit;
    stream_read : trace -> Z -> result pyval;
    (* streaming engine, batch engine, context extractor *)
    stream_start : trace -> pyval -> result unit;
    stream_data : trace -> pyval -> result unit;
    stream_stop : trace -> result pyval;
    transcribe : trace -> pyval -> pyval -> result pyval;
    get_context : trace -> pyval -> result (pyval * pyval);
    (* clock, dictionary merge, chat user database *)
    time_time : trace -> pyval;
    merge_dict : dict -> pyval -> result dict;
    update_profile_for_nick : trace -> pyval -> result unit;
    get_profile : trace -> pyval -> result pyval;
    get_nick_profiles : trace -> pyval -> result pyval }.

(* ------------------------------------------------------------------ *)
(** ** The monad of handlers                                            *)
(* ------------------------------------------------------------------ *)

(** A run returns, raises, or is cut off inside the feed loop. *)
Inductive outcome (A : Type) : Type :=
| Ok (a : A)
| Raise (e : exn)
| OutOfFuel.
Arguments Raise {A} e.
Arguments OutOfFuel {A}.

Definition M (A : Type) : Type := trace -> outcome A * trace.

Definition ret {A} (a : A) : M A := fun t => (Ok a, t).

Definition raise {A} (e : exn) : M A := fun t => (Raise e, t).

Definition bind {A B} (m : M A) (k : A -> M B) : M B :=
  fun t =>
    match m t with
    | (Ok a, t') => k a t'
    | (Raise e, t') => (Raise e, t')
    | (OutOfFuel, t') => (OutOfFuel, t')
    end.

Declare Scope py_scope.
Delimit Scope py_scope with py.
Notation "x <- m ;; k" := (bind m (fun x => k))
  (at level 61, m at next level, right associativity) : py_scope.
Notation "' pat <- m ;; k" := (bind m (fun x => match x with pat => k end))
  (at level 61, pat pattern, m at next level, right associativity) : py_scope.
Notation "m ;; k" := (bind m (fun _ => k))
  (at level 61, right associativity) : py_scope.
Open Scope py_scope.

(** [try: body except <handled> as e: handler e].  What [body] did before
    it raised stays done. *)
Definition try_except {A} (body : M A) (handled : exn -> bool)
    (handler : exn -> M A) : M A :=
  fun t =>
    match body t with
    | (Raise e, t') => if handled e then handler e t' else (Raise e, t')
    | r => r
    end.

(** A call that is recorded and returns: logging and the fire-and-forget
    [bus.emit]. *)
Definition tell (e : event) : M unit := fun t => (Ok tt, (t ++ [e])%list).

(** A collaborator call: the oracle answers from the trace so far. *)
Definition call {A} (e : event) (oracle : trace -> result A) : M A :=
  fun t =>
    match oracle t with
    | Returns a => (Ok a, (t ++ [e])%list)
    | Raises x => (Raise x, (t ++ [e])%list)
    end.

Definition of_result {A} (r : result A) : M A :=
  match r with
  | Returns a => ret a
  | Raises e => raise e
  end.

Definition log (lvl : log_level) (text : string) : M unit := tell (EvLog lvl text).

(** [bus.emit(m)] *)
Definition emit (m : out_message) : M unit := tell (EvEmit m).

(** [d[k]] *)
Definition getitem (d : dict) (k : string) : M pyval :=
  match dict_lookup d k with
  | Some v => ret v
  | None => raise (key_error k)
  end.

(** [d.pop(k)] *)
Definition pop (d : dict) (k : string) : M (pyval * dict) :=
  match dict_lookup d k with
  | Some v => ret (v, dict_remove d k)
  | None => raise (key_error k)
  end.

(** [v.get(k)] on a value that should be a dictionary. *)
Definition py_get (v : pyval) (k : string) : M pyval :=
  match v with
  | PDict d => ret (dict_get d k)
  | _ => raise (attribute_error
                  (repr_str (type_name v) ++ " object has no attribute 'get'"))
  end.

(** [v[k]] on a value that should be a dictionary. *)
Definition py_getitem (v : pyval) (k : string) : M pyval :=
  match v with
  | PDict d => getitem d k
  | _ => raise (type_error (repr_str (type_name v) ++ " object is not subscriptable"))
  end.

(** [v[0]] *)
Definition py_first (v : pyval) : M pyval :=
  match v with
  | PList (x :: _) => ret x
  | PList [] => raise (index_error "list index out of range")
  | PStr (String c _) => ret (PStr (String c EmptyString))
  | PStr EmptyString => raise (index_error "string index out of range")
  | PDict _ => raise (mkExn KeyError [PInt 0])
  | _ => raise (type_error (repr_str (type_name v) ++ " object is not subscriptable"))
  end.

(* ------------------------------------------------------------------ *)
(** ** The handlers                                                     *)
(* ------------------------------------------------------------------ *)

Section Handlers.

Variable w : World.

(** [_emit_utterance_to_skills(message_to_emit)] *)
Definition _emit_utterance_to_skills (message_to_emit : bus_message) : M bool :=
  ident <- getitem (msg_context message_to_emit) "ident" ;;
  resp <- call (EvWaitForResponse message_to_emit 10)
               (fun t => wait_for_response w t message_to_emit 10) ;;
  match resp with
  | None =>
      log LError ("Skills didn't handle " ++ py_str ident ++ "!") ;;
      ret false
  | Some _ => ret true
  end.

(** [handle_utterance(event)] *)
Definition handle_utterance (event : dict) : M bool :=
  utterances <- getitem event "utterances" ;;
  log LInfo ("Utterance: " ++ py_str utterances) ;;
  '(raw_audio, event) <- pop event "raw_audio" ;;
  let '(timing, event) := dict_pop_default event "timing" (PDict []) in
  let context : dict :=
    [("client_name", PStr "mycroft_listener");
     ("source", PStr "audio");
     ("raw_audio", raw_audio);
     ("destination", PList [PStr "skills"]);
     ("timing", timing)] in
  '(context, event) <-
     (if dict_has event "data"
      then '(data, event) <- pop event "data" ;;
           context <- of_result (merge_dict w context data) ;;
           ret (context, event)
      else ret (context, event)) ;;
  '(context, event) <-
     (if dict_has event "ident"
      then '(ident, event) <- pop event "ident" ;;
           ret (dict_set context "ident" ident, event)
      else ret (context, event)) ;;
  _emit_utterance_to_skills (Message "recognizer_loop:utterance" event context).

(** Modelled from the spec: [loop.mute()] and [loop.unmute()] belong to
    [neon_speech.listener.RecognizerLoop], whose source is not at hand.
    The spec makes the listener transitions total ("none of these
    transitions can fail under normal operation"): the call is recorded
    and returns. *)
Definition loop_mute : M unit := tell EvMute.

Definition loop_unmute : M unit := tell EvUnmute.

(** [handle_mic_mute(_)] *)
Definition handle_mic_mute (_ : bus_message) : M unit := loop_mute.

(** [handle_mic_unmute(_)] *)
Definition handle_mic_unmute (_ : bus_message) : M unit := loop_unmute.

(** [config.get("listener").get("mute_during_output")] *)
Definition mute_during_output : M pyval :=
  py_get (dict_get (config w) "listener") "mute_during_output".

(** [handle_audio_start(_)] *)
Definition handle_audio_start (_ : bus_message) : M unit :=
  flag <- mute_during_output ;;
  if truthy flag then loop_mute else ret tt.

(** [handle_audio_end(_)] *)
Definition handle_audio_end (_ : bus_message) : M unit :=
  flag <- mute_during_output ;;
  if truthy flag then loop_unmute else ret tt.

(** *** The STT dispatch coordinator *)

Inductive loop_ctl : Type := Continue | Break.

(** One turn of the [while True] loop of [_get_stt_from_file]:
    read a chunk and feed it; an [EOFError] from either leaves the loop. *)
Definition feed_step : M loop_ctl :=
  try_except
    (data <- call (EvRead 1024) (fun t => stream_read w t 1024) ;;
     call (EvStreamData data) (fun t => stream_data w t data) ;;
     ret Continue)
    is_EOFError
    (fun _ => ret Break).

Fixpoint feed_loop (fuel : nat) : M unit :=
  match fuel with
  | O => fun t => (OutOfFuel, t)
  | S fuel' =>
      c <- feed_step ;;
      match c with
      | Continue => feed_loop fuel'
      | Break => ret tt
      end
  end.

(** [with lock: body]: the lock is released when [body] returns and when
    it raises. *)
Definition with_lock {A} (body : M A) : M A :=
  tell EvAcquire ;;
  fun t =>
    match body t with
    | (Ok a, t') => (Ok a, (t' ++ [EvRelease])%list)
    | (Raise e, t') => (Raise e, (t' ++ [EvRelease])%list)
    | (OutOfFuel, t') => (OutOfFuel, t')
    end.

(** The block under [with lock:]. *)
Definition stream_cycle (fuel : nat) (lang : pyval) : M pyval :=
  call (EvStreamStart lang) (fun t => stream_start w t lang) ;;
  feed_loop fuel ;;
  call EvStreamStop (stream_stop w).

(** [_get_stt_from_file], from the decoding to the transcript list:
    the decoded audio and what the engine answered. *)
Definition stt_transcriptions (fuel : nat) (wav_file lang : pyval)
  : M (pyval * pyval) :=
  audio_data <- call (EvDecode wav_file) (fun t => decode w t wav_file) ;;
  transcriptions <-
    (if API_STT w
     then call (EvOpenStream wav_file)
               (fun t => get_audio_file_stream w t wav_file) ;;
          with_lock (stream_cycle fuel lang)
     else call (EvTranscribe audio_data lang)
               (fun t => transcribe w t audio_data lang)) ;;
  ret (audio_data, transcriptions).

(** [_get_stt_from_file(wav_file, lang="en-us")].  The option is empty
    for a call that leaves [lang] out; a call that passes Python's [None]
    has [Some PNone]. *)
Definition _get_stt_from_file (fuel : nat) (wav_file : pyval)
    (lang : option pyval) : M (pyval * pyval * pyval) :=
  let lang := match lang with Some l => l | None => PStr "en-us" end in
  '(audio_data, transcriptions) <- stt_transcriptions fuel wav_file lang ;;
  '(audio, audio_context) <-
     call (EvGetContext audio_data) (fun t => get_context w t audio_data) ;;
  ret (audio, audio_context, transcriptions).

(** *** The file-based transcription API *)

(** The [try] statement of [handle_get_stt]. *)
Definition get_stt_reply (fuel : nat) (message : bus_message)
    (ident wav_file_path lang : pyval) : M unit :=
  try_except
    ('(_, parser_data, transcriptions) <-
        _get_stt_from_file fuel wav_file_path (Some lang) ;;
     emit (Reply message ident
             [("parser_data", parser_data); ("transcripts", transcriptions)]))
    is_Exception
    (fun e =>
       log LError (str_exn e) ;;
       emit (Reply message ident [("error", PStr (repr_exn e))])).

(** [handle_get_stt(message)] *)
Definition handle_get_stt (fuel : nat) (message : bus_message) : M unit :=
  let wav_file_path := dict_get (msg_data message) "audio_file" in
  let lang := dict_get (msg_data message) "lang" in
  let ident := py_or (dict_get (msg_context message) "ident")
                     (PStr "neon.get_stt.response") in
  (if negb (truthy wav_file_path)
   then emit (Reply message ident [("error", PStr "audio_file not specified!")])
   else ret tt) ;;
  is_file <- call (EvIsFile wav_file_path) (fun t => isfile w t wav_file_path) ;;
  (if negb is_file
   then emit (Reply message ident
                [("error", PStr (py_str wav_file_path ++ " Not found!"))])
   else ret tt) ;;
  get_stt_reply fuel message ident wav_file_path lang.

(** [msg.context("klat_data")]: a dictionary is not callable. *)
Definition call_dict (d : dict) (arg : pyval) : M pyval :=
  raise (type_error "'dict' object is not callable").

(** [build_context(msg)], local to [handle_audio_input] *)
Definition build_context (msg : bus_message) : M dict :=
  let source := dict_get (msg_context msg)
                  (if truthy (PStr "source") then "source" else "speech_api") in
  transcribed <- call EvTime (fun t => Returns (time_time w t)) ;;
  fresh <- call EvTime (fun t => Returns (time_time w t)) ;;
  let ctx : dict :=
    [("client_name", PStr "mycroft_listener");
     ("source", source);
     ("destination", PList [PStr "skills"]);
     ("audio_parser_data", dict_get (msg_context msg) "audio_parser_data");
     ("client", dict_get (msg_context msg) "client");
     ("neon_should_respond", dict_get (msg_context msg) "neon_should_respond");
     ("username", dict_get (msg_context msg) "username");
     ("timing", PDict [("start", dict_get (msg_data msg) "time");
                       ("transcribed", transcribed)]);
     ("ident", dict_get_default (msg_context msg) "ident" fresh)] in
  if truthy (dict_get (msg_context msg) "klat_data")
  then klat_data <- call_dict (msg_context msg) (PStr "klat_data") ;;
       let ctx := dict_set ctx "klat_data" klat_data in
       let ctx := dict_set ctx "nick_profiles"
                    (dict_get (msg_context msg) "nick_profiles") in
       ret ctx
  else ret ctx.

(** [handle_audio_input(message)].  The [except] clause replies to the
    message as it is when the exception is raised: with
    [audio_parser_data] in its context once that assignment has run. *)
Definition handle_audio_input (fuel : nat) (message : bus_message) : M unit :=
  let ident := py_or (dict_get (msg_context message) "ident")
                     (PStr "neon.audio_input.response") in
  let wav_file_path := dict_get (msg_data message) "audio_file" in
  let lang := dict_get (msg_data message) "lang" in
  let on_exception (message : bus_message) (e : exn) : M unit :=
    log LError (str_exn e) ;;
    emit (Reply message ident [("error", PStr (repr_exn e))]) in
  try_except
    ('(_, parser_data, transcriptions) <-
        _get_stt_from_file fuel wav_file_path (Some lang) ;;
     (* message.context["audio_parser_data"] = parser_data *)
     let message :=
       Message (msg_type message) (msg_data message)
         (dict_set (msg_context message) "audio_parser_data" parser_data) in
     try_except
       (context <- build_context message ;;
        let data : dict :=
          [("utterances", transcriptions);
           ("lang", dict_get_default (msg_data message) "lang" (PStr "en-us"))] in
        handled <- _emit_utterance_to_skills
                     (Message "recognizer_loop:utterance" data context) ;;
        emit (Reply message ident
                [("parser_data", parser_data);
                 ("transcripts", transcriptions);
                 ("skills_recv", PBool handled)]))
       is_Exception
       (on_exception message))
    is_Exception
    (on_exception message).

(** *** The legacy klat transport *)

(** [v.get(k, dflt)] on a value that should be a dictionary. *)
Definition py_get_default (v : pyval) (k : string) (dflt : pyval) : M pyval :=
  match v with
  | PDict d => ret (dict_get_default d k dflt)
  | _ => raise (attribute_error
                  (repr_str (type_name v) ++ " object has no attribute 'get'"))
  end.

(** The locals of [handle_input_from_klat] that are set before the audio
    is looked at. *)
Record klat_locals : Type := mkKlat
  { stt_language : pyval;
    request_id : string;
    nick_profiles : pyval;
    mobile : bool;
    client : string;
    ident : pyval }.

(** [handle_input_from_klat], up to [ident = time.time()]. *)
Definition klat_prelude (message : bus_message) : M klat_locals :=
  let data := msg_data message in
  let nick := dict_get data "user" in
  call (EvUpdateProfile nick) (fun t => update_profile_for_nick w t nick) ;;
  chat_user <- call (EvGetProfile nick) (fun t => get_profile w t nick) ;;
  speech <- py_getitem chat_user "speech" ;;
  stt_language <- py_get_default speech "stt_language" (PStr "en") ;;
  let request_id :=
    "sid-" ++ py_str (dict_get data "sid") ++ "-"
      ++ py_str (dict_get data "socketIdEncrypted") ++ "-"
      ++ py_str nick ++ "-" ++ py_str (dict_get data "nano") in
  nick_profiles <-
    try_except
      (call (EvGetNickProfiles (dict_get data "cid_nicks"))
            (fun t => get_nick_profiles w t (dict_get data "cid_nicks")))
      is_TypeError
      (fun _ => call (EvGetNickProfiles (PList [nick]))
                     (fun t => get_nick_profiles w t (PList [nick]))) ;;
  let mobile := eq_str (dict_get data "nano") "mobile" in
  let client :=
    if mobile then "mobile"
    else if eq_str (dict_get data "nano") "true" then "nano"
    else "klat" in
  ident <- call EvTime (fun t => Returns (time_time w t)) ;;
  ret (mkKlat stt_language request_id nick_profiles mobile client ident).

(** [handle_input_from_klat], from [LOG.debug(audio_file)] to the guard:
    [None] is the early [return], otherwise
    [(audio_context, transcriptions)]. *)
Definition klat_transcriptions (fuel : nat) (message : bus_message)
    (loc : klat_locals) : M (option (pyval * pyval)) :=
  let data := msg_data message in
  let audio_file := dict_get data "raw_audio" in
  log LDebug (py_str audio_file) ;;
  if truthy audio_file then
    try_except
      ('(_, audio_context, transcriptions) <-
          _get_stt_from_file fuel audio_file (Some (stt_language loc)) ;;
       (if truthy (dict_get data "need_transcription")
        then log LDebug ("return stt to server: " ++ py_str transcriptions) ;;
             first <- py_first transcriptions ;;
             emit (New (Message "css.emit"
                          [("event", PStr "stt from mycroft");
                           ("data", PList [first; PStr (request_id loc)])]
                          []))
        else ret tt) ;;
       ret (Some (audio_context, transcriptions)))
      is_Exception
      (fun x =>
         log LError (str_exn x) ;;
         ret (Some (PNone, PList [dict_get data "shout_text"])))
  else if truthy (dict_get data "need_transcription") then
    log LError ("Need transcription but no audio passed! " ++ str_message w message) ;;
    ret None
  else ret (Some (PNone, PList [dict_get data "shout_text"])).

(** [handle_input_from_klat], from the guard [if not transcriptions] on. *)
Definition klat_publish (message : bus_message) (loc : klat_locals)
    (audio_context transcriptions : pyval) : M unit :=
  let mdata := msg_data message in
  if negb (truthy transcriptions) then
    log LWarning "Null Transcription!"
  else
    let data : dict :=
      [("utterances", transcriptions); ("lang", stt_language loc)] in
    speak_execute <- py_first transcriptions ;;
    raw_utterance <- py_first transcriptions ;;
    transcribed <- call EvTime (fun t => Returns (time_time w t)) ;;
    let context : dict :=
      [("client_name", PStr "mycroft_listener");
       ("source", PStr "klat");
       ("destination", PList [PStr "skills"]);
       ("audio_parser_data", audio_context);
       ("raw_audio", dict_get mdata "raw_audio");
       ("mobile", PBool (mobile loc));
       ("client", PStr (client loc));
       ("klat_data", PDict [("cid", dict_get mdata "cid");
                            ("sid", dict_get mdata "sid");
                            ("title", dict_get mdata "title");
                            ("nano", dict_get mdata "nano");
                            ("request_id", PStr (request_id loc))]);
       ("neon_should_respond", PBool false);
       ("username", dict_get mdata "user");
       ("nick_profiles", nick_profiles loc);
       ("cc_data", PDict [("speak_execute", speak_execute);
                          ("raw_utterance", raw_utterance)]);
       ("timing", PDict [("start", dict_get mdata "time");
                         ("transcribed", transcribed)]);
       ("ident", ident loc)] in
    log LDebug "Send server request to skills for processing" ;;
    _emit_utterance_to_skills (Message "recognizer_loop:utterance" data context) ;;
    ret tt.

(** [handle_input_from_klat(message)] *)
Definition handle_input_from_klat (fuel : nat) (message : bus_message) : M unit :=
  loc <- klat_prelude message ;;
  r <- klat_transcriptions fuel message loc ;;
  match r with
  | None => ret tt
  | Some (audio_context, transcriptions) =>
      klat_publish message loc audio_context transcriptions
  end.

End Handlers.

Open Scope list_scope.

(* ------------------------------------------------------------------ *)
(** ** Vocabulary of the statements                                     *)
(* ------------------------------------------------------------------ *)

(** *** Events by kind *)

(** The utterance is published by [bus.wait_for_response]. *)
Definition is_publish (e : event) : bool :=
  match e with EvWaitForResponse _ _ => true | _ => false end.

Definition is_emit (e : event) : bool :=
  match e with EvEmit _ => true | _ => false end.

(** Anything sent on the bus. *)
Definition is_bus (e : event) : bool := is_publish e || is_emit e.

(** The calls [_get_stt_from_file] makes: decoder, file stream, lock,
    engines and context extractor. *)
Definition is_stt (e : event) : bool :=
  match e with
  | EvDecode _ | EvOpenStream _ | EvRead _ | EvAcquire | EvRelease
  | EvStreamStart _ | EvStreamData _ | EvStreamStop
  | EvTranscribe _ _ | EvGetContext _ => true
  | _ => false
  end.


Definition count (p : event -> bool) (t : trace) : nat :=
  List.length (filter p t).

(** *** Footprints: which collaborators a computation calls *)

(** [only P m]: a run of [m] extends the trace, and only by events in [P]. *)
Definition only (P : event -> bool) {A} (m : M A) : Prop :=
  forall t, exists d, snd (m t) = (t ++ d)%list /\ forallb P d = true.

(** [grows m]: a run of [m] only adds to the trace. *)
Definition grows {A} (m : M A) : Prop := only (fun _ => true) m.

(** [starts_with e m]: the first thing a run of [m] does is [e]. *)
Definition starts_with (e : event) {A} (m : M A) : Prop :=
  forall t, exists d, snd (m t) = t ++ e :: d.

(** *** The flag, the feed loop, the audio-input reply *)

(** The flag as the two handlers read it: the [listener] section is a
    dictionary whose [mute_during_output] entry is true. *)
Definition flag_on (w : World) : bool :=
  match dict_get (config w) "listener" with
  | PDict d => truthy (dict_get d "mute_during_output")
  | _ => false
  end.

Section FeedLoop.

Variable w : World.

(** [fed k t]: the trace after [k] full turns of the feed loop from [t],
    when each of these turns reads a chunk and feeds it. *)
Fixpoint fed (k : nat) (t : trace) : option trace :=
  match k with
  | O => Some t
  | S k' =>
      match feed_step w t with
      | (Ok Continue, t') => fed k' t'
      | _ => None
      end
  end.

(** The turn at [t] meets an [EOFError], from the read or from the feed. *)
Inductive end_of_data (t : trace) : trace -> Prop :=
| eof_on_read (e : exn) :
    stream_read w t 1024 = Raises e ->
    is_EOFError e = true ->
    end_of_data t (t ++ [EvRead 1024])
| eof_on_feed (chunk : pyval) (e : exn) :
    stream_read w t 1024 = Returns chunk ->
    stream_data w (t ++ [EvRead 1024]) chunk = Raises e ->
    is_EOFError e = true ->
    end_of_data t (t ++ [EvRead 1024; EvStreamData chunk]).

End FeedLoop.

(** What calling the context dictionary raises. *)
Definition not_callable : exn := type_error "'dict' object is not callable".

(** The message once [audio_parser_data] is stored in its context. *)
Definition with_parser_data (m : bus_message) (parser_data : pyval) : bus_message :=
  Message (msg_type m) (msg_data m)
    (dict_set (msg_context m) "audio_parser_data" parser_data).

(* ------------------------------------------------------------------ *)
(** ** Concurrent requests on the shared streaming engine               *)
(* ------------------------------------------------------------------ *)

(** Every transport handler runs on its own invocation, so several
    requests may be inside [_get_stt_from_file] at once.  A request is a
    thread running the block [with lock: ...] of the streaming branch; a
    step of a thread is one call on a collaborator; a schedule picks, at
    each turn, the thread that moves.  Each request comes with the
    collaborators as it sees them (its own file stream, the engine it
    shares with the others); their answers may depend on every call made
    so far, by any request. *)

(** Where a request stands in the block. *)
Inductive pc : Type :=
| AtLock                          (* before [with lock:] *)
| AtStart                         (* lock held, before [stream_start] *)
| AtRead                          (* in the loop, before [read] *)
| AtFeed (data : pyval)           (* in the loop, before [stream_data] *)
| AtStop                          (* past the loop, before [stream_stop] *)
| AtExit (r : result pyval)       (* leaving the block: release the lock *)
| Done (r : result pyval).        (* past the block *)

Record thread : Type := mkThread
  { th_world : World; th_lang : pyval; th_pc : pc }.

(** The lock (held by which request), the requests, and the calls made
    so far, each with the request that made it. *)
Record sys : Type := mkSys
  { lock : option nat; threads : list thread; calls : list (nat * event) }.

Definition after_raise (e : exn) : pc :=
  if is_EOFError e then AtStop else AtExit (Raises e).

(** The next call of a request, given the calls made so far, and where
    the request stands after it. *)
Definition next_pc (w : World) (lang : pyval) (h : trace) (p : pc)
  : option (event * pc) :=
  match p with
  | AtLock => Some (EvAcquire, AtStart)
  | AtStart =>
      Some (EvStreamStart lang,
            match stream_start w h lang with
            | Returns _ => AtRead
            | Raises e => AtExit (Raises e)
            end)
  | AtRead =>
      Some (EvRead 1024,
            match stream_read w h 1024 with
            | Returns data => AtFeed data
            | Raises e => after_raise e
            end)
  | AtFeed data =>
      Some (EvStreamData data,
            match stream_data w h data with
            | Returns _ => AtRead
            | Raises e => after_raise e
            end)
  | AtStop =>
      Some (EvStreamStop,
            match stream_stop w h with
            | Returns transcriptions => AtExit (Returns transcriptions)
            | Raises e => AtExit (Raises e)
            end)
  | AtExit r => Some (EvRelease, Done r)
  | Done _ => None
  end.

Fixpoint update_nth {A} (i : nat) (x : A) (l : list A) : list A :=
  match l, i with
  | [], _ => []
  | _ :: r, O => x :: r
  | y :: r, S i' => y :: update_nth i' x r
  end.

(** One step of request [i]; [None] when it cannot move: it is past the
    block, or it waits for the lock. *)
Definition step (i : nat) (s : sys) : option sys :=
  match nth_error (threads s) i with
  | None => None
  | Some th =>
      match next_pc (th_world th) (th_lang th) (map snd (calls s)) (th_pc th) with
      | None => None
      | Some (e, p') =>
          let th' := mkThread (th_world th) (th_lang th) p' in
          match e, lock s with
          | EvAcquire, Some _ => None
          | EvAcquire, None =>
              Some (mkSys (Some i) (update_nth i th' (threads s))
                      (calls s ++ [(i, e)]))
          | EvRelease, _ =>
              Some (mkSys None (update_nth i th' (threads s))
                      (calls s ++ [(i, e)]))
          | _, _ =>
              Some (mkSys (lock s) (update_nth i th' (threads s))
                      (calls s ++ [(i, e)]))
          end
      end
  end.

(** A schedule names the request to move at each turn; a request that
    cannot move leaves the system as it is. *)
Fixpoint run (schedule : list nat) (s : sys) : sys :=
  match schedule with
  | [] => s
  | i :: rest =>
      run rest (match step i s with Some s' => s' | None => s end)
  end.

(** [N] requests about to enter the block, the lock free. *)
Definition init (requests : list (World * pyval)) : sys :=
  mkSys None (map (fun r => mkThread (fst r) (snd r) AtLock) requests) [].

(** *** Serial calls and their counts *)

(** The calls are serial: reading them in order with the request that
    owns the lock, an acquisition finds the lock free, and every other
    call is made by the owner. *)
Fixpoint serial (owner : option nat) (l : list (nat * event)) : bool :=
  match l with
  | [] => true
  | (i, e) :: rest =>
      match e, owner with
      | EvAcquire, None => serial (Some i) rest
      | EvAcquire, Some _ => false
      | EvRelease, Some j => (i =? j)%nat && serial None rest
      | _, Some j => (i =? j)%nat && serial owner rest
      | _, None => false
      end
  end.

Definition is_start (e : event) : bool :=
  match e with EvStreamStart _ => true | _ => false end.

Definition is_stop (e : event) : bool :=
  match e with EvStreamStop => true | _ => false end.

(** How many calls of a kind request [i] made, and how many were made
    in all. *)
Definition calls_of (p : event -> bool) (i : nat) (l : list (nat * event)) : nat :=
  List.length (filter (fun x => (fst x =? i)%nat && p (snd x)) l).

Definition calls_in_all (p : event -> bool) (l : list (nat * event)) : nat :=
  List.length (filter (fun x => p (snd x)) l).

(** Every request is past the block and has its transcript list. *)
Definition all_returned (s : sys) : bool :=
  forallb (fun th => match th_pc th with Done (Returns _) => true | _ => false end)
    (threads s).

(** *** The invariant of the interleaved runs *)

Definition in_section (p : pc) : bool :=
  match p with AtLock | Done _ => false | _ => true end.

Definition is_done (p : pc) : bool :=
  match p with Done _ => true | _ => false end.

(** Who owns the lock after the calls [l]. *)
Fixpoint owner_after (owner : option nat) (l : list (nat * event)) : option nat :=
  match l with
  | [] => owner
  | (i, e) :: rest =>
      owner_after (match e with
                   | EvAcquire => Some i
                   | EvRelease => None
                   | _ => owner
                   end) rest
  end.

(** How many [stream_start] calls a request has made, from where it
    stands; for [stream_stop], what is known from where it stands. *)
Definition starts_of (p : pc) : nat :=
  match p with AtLock | AtStart => 0 | _ => 1 end.

Definition stops_ok (p : pc) (n : nat) : Prop :=
  match p with
  | AtExit (Returns _) | Done (Returns _) => n = 1
  | AtExit (Raises _) | Done (Raises _) => n <= 1
  | _ => n = 0
  end.

Record invariant (s : sys) : Prop := mkInvariant
  { inv_serial : serial None (calls s) = true;
    inv_owner : owner_after None (calls s) = lock s;
    inv_section : forall i th,
      nth_error (threads s) i = Some th ->
      (in_section (th_pc th) = true <-> lock s = Some i);
    inv_released : forall i th,
      nth_error (threads s) i = Some th ->
      In (i, EvRelease) (calls s) -> is_done (th_pc th) = true;
    inv_silent : forall u b e v,
      calls s = u ++ (b, e) :: v -> ~ In (b, EvRelease) u;
    inv_starts : forall i th,
      nth_error (threads s) i = Some th ->
      calls_of is_start i (calls s) = starts_of (th_pc th);
    inv_stops : forall i th,
      nth_error (threads s) i = Some th ->
      stops_ok (th_pc th) (calls_of is_stop i (calls s));
    inv_bound : forall x, In x (calls s) -> fst x < List.length (threads s);
    inv_holder : forall i, lock s = Some i -> i < List.length (threads s) }.

(** The moves of a request: the call it makes and where it stands next. *)
Inductive move : pc -> event -> pc -> Prop :=
| move_acquire : move AtLock EvAcquire AtStart
| move_start (lang : pyval) : move AtStart (EvStreamStart lang) AtRead
| move_start_raises (lang : pyval) (e : exn) :
    move AtStart (EvStreamStart lang) (AtExit (Raises e))
| move_read (data : pyval) : move AtRead (EvRead 1024) (AtFeed data)
| move_read_eof : move AtRead (EvRead 1024) AtStop
| move_read_raises (e : exn) : move AtRead (EvRead 1024) (AtExit (Raises e))
| move_feed (data : pyval) : move (AtFeed data) (EvStreamData data) AtRead
| move_feed_eof (data : pyval) : move (AtFeed data) (EvStreamData data) AtStop
| move_feed_raises (data : pyval) (e : exn) :
    move (AtFeed data) (EvStreamData data) (AtExit (Raises e))
| move_stop (r : result pyval) : move AtStop EvStreamStop (AtExit r)
| move_release (r : result pyval) : move (AtExit r) EvRelease (Done r).

(** *** Requests that come to an end *)

(** The reads made since the stream was last started. *)
Definition reads_in_cycle (t : trace) : nat :=
  fold_left (fun n e => match e with
                        | EvStreamStart _ => 0
                        | EvRead _ => S n
                        | _ => n
                        end) t 0.

(** Collaborators under which a request completes its cycle: the engine
    calls return, the file stream raises nothing but [EOFError], and it
    does so after [K] chunks at the latest. *)
Record cooperative (K : nat) (w : World) : Prop := mkCooperative
  { coop_start : forall h lang, stream_start w h lang = Returns tt;
    coop_data : forall h data, stream_data w h data = Returns tt;
    coop_stop : forall h, exists v, stream_stop w h = Returns v;
    coop_read : forall h e,
      stream_read w h 1024 = Raises e -> is_EOFError e = true;
    coop_end : forall h,
      K <= reads_in_cycle h -> exists e, stream_read w h 1024 = Raises e }.

(** A bound on the calls a request still has to make, standing at [p]
    after [r] reads in its cycle. *)
Definition rank (K r : nat) (p : pc) : nat :=
  match p with
  | AtLock => 2 * K + 7
  | AtStart => 2 * K + 6
  | AtRead => 2 * (K - r) + 4
  | AtFeed _ => 2 * (K - r) + 5
  | AtStop => 2
  | AtExit _ => 1
  | Done _ => 0
  end.

Definition measure (K : nat) (s : sys) : nat :=
  list_sum (map (fun th => rank K (reads_in_cycle (map snd (calls s))) (th_pc th))
              (threads s)).

(** No request has met an exception. *)
Definition unfailed (p : pc) : bool :=
  match p with
  | AtExit (Raises _) | Done (Raises _) => false
  | _ => true
  end.

Definition all_cooperative (K : nat) (s : sys) : Prop :=
  forall i th, nth_error (threads s) i = Some th -> cooperative K (th_world th).

Definition all_unfailed (s : sys) : Prop :=
  forall i th, nth_error (threads s) i = Some th -> unfailed (th_pc th) = true.

(** *** A request scheduled alone *)

Definition tag (i : nat) (t : trace) : list (nat * event) := map (pair i) t.

(** The system of one request, standing at [p] after the calls [t]. *)
Definition alone (w : World) (lang : pyval) (held : bool) (p : pc) (t : trace)
  : sys :=
  mkSys (if held then Some 0 else None) [mkThread w lang p] (tag 0 t).

(* ------------------------------------------------------------------ *)
(** ** A concrete world and sample requests                            *)
(* ------------------------------------------------------------------ *)

(** A world to run the handlers in: a batch or a streaming engine, the
    [mute_during_output] flag, whether the audio files asked for exist,
    whether skills acknowledge, whether the context extractor works, and
    how many chunks a file stream yields before [EOFError]. *)
Definition studio (api : bool) (flag : pyval) (files ack extractor : bool)
    (chunks : nat) : World :=
  {| API_STT := api;
     config := [("listener", PDict [("mute_during_output", flag)])];
     wait_for_response := fun _ _ _ =>
       Returns (if ack then Some (Message "skills.ack" [] []) else None);
     str_message := fun m => ("<Message " ++ msg_type m ++ ">")%string;
     isfile := fun _ p =>
       match p with
       | PStr _ => Returns files
       | _ => Raises (type_error "stat: path should be string, not NoneType")
       end;
     decode := fun _ p =>
       if files then Returns (PObj "AudioData")
       else Raises (mkExn (OtherException "FileNotFoundError")
                      [PStr "No such file or directory"]);
     get_audio_file_stream := fun _ _ => Returns tt;
     stream_read := fun t _ =>
       if (reads_in_cycle t <? chunks)%nat then Returns (PObj "chunk")
       else Raises (mkExn EOFError []);
     stream_start := fun _ _ => Returns tt;
     stream_data := fun _ _ => Returns tt;
     stream_stop := fun _ => Returns (PList [PStr "hello"]);
     transcribe := fun _ _ _ => Returns (PList [PStr "hello"]);
     get_context := fun _ a =>
       if extractor then Returns (a, PDict [])
       else Raises (mkExn (OtherException "RuntimeError") [PStr "parser failed"]);
     time_time := fun _ => PFloat "1.5";
     merge_dict := fun base delta =>
       match delta with
       | PDict d => Returns (fold_left (fun b kv => dict_set b (fst kv) (snd kv)) d base)
       | _ => Raises (attribute_error "object has no attribute 'items'")
       end;
     update_profile_for_nick := fun _ _ => Returns tt;
     get_profile := fun _ _ => Returns (PDict [("speech", PDict [])]);
     get_nick_profiles := fun _ _ => Returns (PDict []) |}.

(** A message as [handle_utterance] builds it for an event without
    [ident]. *)
Definition utterance_without_ident : bus_message :=
  Message "recognizer_loop:utterance"
    [("utterances", PList [PStr "hello"])]
    [("client_name", PStr "mycroft_listener");
     ("source", PStr "audio");
     ("raw_audio", PObj "AudioData");
     ("destination", PList [PStr "skills"]);
     ("timing", PDict [])].

Definition get_stt_missing : bus_message :=
  Message "neon.get_stt" [("audio_file", PStr "missing.wav")] [].

Definition get_stt_without_lang : bus_message :=
  Message "neon.get_stt" [("audio_file", PStr "sample.wav")] [].

Definition audio_input_klat : bus_message :=
  Message "neon.audio_input" [("audio_file", PStr "sample.wav")]
    [("klat_data", PDict [("cid", PInt 1)])].

Definition audio_input_empty_klat : bus_message :=
  Message "neon.audio_input" [("audio_file", PStr "sample.wav")]
    [("klat_data", PDict [])].



(** A world whose batch engine hears nothing: the transcript list is
    empty. *)
Definition deaf_studio : World :=
  {| API_STT := false;
     config := [];
     wait_for_response := fun _ _ _ => Returns None;
     str_message := fun m => ("<Message " ++ msg_type m ++ ">")%string;
     isfile := fun _ _ => Returns true;
     decode := fun _ _ => Returns (PObj "AudioData");
     get_audio_file_stream := fun _ _ => Returns tt;
     stream_read := fun _ _ => Raises (mkExn EOFError []);
     stream_start := fun _ _ => Returns tt;
     stream_data := fun _ _ => Returns tt;
     stream_stop := fun _ => Returns (PList []);
     transcribe := fun _ _ _ => Returns (PList []);
     get_context := fun _ a => Returns (a, PDict []);
     time_time := fun _ => PFloat "1.5";
     merge_dict := fun base _ => Returns base;
     update_profile_for_nick := fun _ _ => Returns tt;
     get_profile := fun _ _ => Returns (PDict [("speech", PDict [])]);
     get_nick_profiles := fun _ _ => Returns (PDict []) |}.



(** Two requests, the second one scheduled first at every turn. *)
Definition two_requests : list (World * pyval) :=
  [(studio true (PBool true) true true true 1, PStr "en-us");
   (studio true (PBool true) true true true 3, PStr "de-de")].

Definition alternating : list nat :=
  [1;0;1;0;1;0;1;0;1;0;1;0;1;0;1;0;1;0;1;0;1;0;0;0;0;0;0;0].

(* ------------------------------------------------------------------ *)
(** ** The forwarding handlers                                          *)
(* ------------------------------------------------------------------ *)

(** The routing context the forwarding handlers attach to what they
    emit. *)
Definition listener_context : dict :=
  [("client_name", PStr "mycroft_listener");
   ("source", PStr "audio");
   ("destination", PList [PStr "skills"])].

(** [handle_record_begin()] *)
Definition handle_record_begin : M unit :=
  log LInfo "Begin Recording..." ;;
  emit (New (Message "recognizer_loop:record_begin" [] listener_context)).

(** [handle_record_end()] *)
Definition handle_record_end : M unit :=
  log LInfo "End Recording..." ;;
  emit (New (Message "recognizer_loop:record_end" [] listener_context)).

(** [handle_no_internet()] *)
Definition handle_no_internet : M unit :=
  log LDebug "Notifying enclosure of no internet connection" ;;
  emit (New (Message "enclosure.notify.no_internet" [] listener_context)).

(** [handle_awoken()] *)
Definition handle_awoken : M unit :=
  log LInfo "Listener is now Awake: " ;;
  emit (New (Message "mycroft.awoken" [] listener_context)).

(** ["prefix" + v]: only a [str] can be appended to a [str]. *)
Definition py_concat (prefix : string) (v : pyval) : M string :=
  match v with
  | PStr s => ret (prefix ++ s)%string
  | _ =>
      raise (type_error
               ("can only concatenate str (not "
                  ++ String dquote (type_name v ++ String dquote ") to str"))%string)
  end.

(** [handle_hotword(event)] *)
Definition handle_hotword (event : dict) : M unit :=
  if negb (truthy (dict_get_default event "listen" (PBool false)))
  then hotword <- getitem event "hotword" ;;
       text <- py_concat "Hotword Detected: " hotword ;;
       log LInfo text ;;
       emit (New (Message "recognizer_loop:hotword" event listener_context))
  else hotword <- getitem event "hotword" ;;
       text <- py_concat "Wakeword Detected: " hotword ;;
       log LInfo text ;;
       emit (New (Message "recognizer_loop:wakeword" event listener_context)).

(** [handle_unknown()] *)
Definition handle_unknown : M unit :=
  emit (New (Message "mycroft.speech.recognition.unknown" [] listener_context)).

(** [handle_speak(event)] *)
Definition handle_speak (event : dict) : M unit :=
  emit (New (Message "speak" event listener_context)).

(** The handlers that only forward a listener event to the bus, for an
    event payload to hand to the one that takes one. *)
Definition forwarders (event : dict) : list (M unit) :=
  [handle_record_begin; handle_record_end; handle_no_internet; handle_awoken;
   handle_unknown; handle_speak event].

(** *** Further vocabulary *)

Definition is_log (e : event) : bool :=
  match e with EvLog _ _ => true | _ => false end.

Definition is_lock (e : event) : bool :=
  match e with EvAcquire | EvRelease => true | _ => false end.

(** The calls made under the lock. *)
Definition is_cycle_call (e : event) : bool :=
  match e with
  | EvStreamStart _ | EvRead _ | EvStreamData _ | EvStreamStop => true
  | _ => false
  end.

(** The calls of the feed loop. *)
Definition is_feed_call (e : event) : bool :=
  match e with EvRead _ | EvStreamData _ => true | _ => false end.

(** The calls of [_get_stt_from_file] with a batch engine. *)
Definition is_batch_call (e : event) : bool :=
  match e with
  | EvDecode _ | EvTranscribe _ _ | EvGetContext _ => true
  | _ => false
  end.

Definition is_stream_stop (e : event) : bool :=
  match e with EvStreamStop => true | _ => false end.

Definition is_nick_profiles (e : event) : bool :=
  match e with EvGetNickProfiles _ => true | _ => false end.


Section FeedTurns.

Variable w : World.

(** [full_turns t d]: the calls [d], made from [t] on, are full turns of
    the feed loop: in each turn the read returns a chunk and the engine,
    fed this very chunk, returns. *)
Inductive full_turns : trace -> list event -> Prop :=
| full_turns_none (t : trace) : full_turns t []
| full_turns_more (t : trace) (chunk : pyval) (d : list event) :
    stream_read w t 1024 = Returns chunk ->
    stream_data w (t ++ [EvRead 1024]) chunk = Returns tt ->
    full_turns (t ++ [EvRead 1024; EvStreamData chunk]) d ->
    full_turns t (EvRead 1024 :: EvStreamData chunk :: d).

(** [feeds t d e]: the calls [d], made from [t] on, are full turns of the
    feed loop closed by the call that raised [e]: a read that raised and
    so stands alone, or the feed, which raised, of the chunk the read
    before it returned. *)
Inductive feeds : trace -> list event -> exn -> Prop :=
| feeds_read_raises (t : trace) (e : exn) :
    stream_read w t 1024 = Raises e ->
    feeds t [EvRead 1024] e
| feeds_feed_raises (t : trace) (chunk : pyval) (e : exn) :
    stream_read w t 1024 = Returns chunk ->
    stream_data w (t ++ [EvRead 1024]) chunk = Raises e ->
    feeds t [EvRead 1024; EvStreamData chunk] e
| feeds_turn (t : trace) (chunk : pyval) (d : list event) (e : exn) :
    stream_read w t 1024 = Returns chunk ->
    stream_data w (t ++ [EvRead 1024]) chunk = Returns tt ->
    feeds (t ++ [EvRead 1024; EvStreamData chunk]) d e ->
    feeds t (EvRead 1024 :: EvStreamData chunk :: d) e.

(** The turn at [t] meets an exception that is not an [EOFError], from
    the read or from the feed. *)
Inductive feed_failure (t : trace) (e : exn) : trace -> Prop :=
| failure_on_read :
    stream_read w t 1024 = Raises e ->
    is_EOFError e = false ->
    feed_failure t e (t ++ [EvRead 1024])
| failure_on_feed (chunk : pyval) :
    stream_read w t 1024 = Returns chunk ->
    stream_data w (t ++ [EvRead 1024]) chunk = Raises e ->
    is_EOFError e = false ->
    feed_failure t e (t ++ [EvRead 1024; EvStreamData chunk]).

End FeedTurns.

(** *** Further sample worlds and requests *)

(** A world whose file stream breaks at the first read. *)
Definition broken_stream : exn := mkExn (OtherException "OSError") [PStr "read failed"].

Definition broken_studio : World :=
  {| API_STT := true;
     config := [];
     wait_for_response := fun _ _ _ => Returns None;
     str_message := fun m => ("<Message " ++ msg_type m ++ ">")%string;
     isfile := fun _ _ => Returns true;
     decode := fun _ _ => Returns (PObj "AudioData");
     get_audio_file_stream := fun _ _ => Returns tt;
     stream_read := fun _ _ => Raises broken_stream;
     stream_start := fun _ _ => Returns tt;
     stream_data := fun _ _ => Returns tt;
     stream_stop := fun _ => Returns (PList []);
     transcribe := fun _ _ _ => Returns (PList []);
     get_context := fun _ a => Returns (a, PDict []);
     time_time := fun _ => PFloat "1.5";
     merge_dict := fun base _ => Returns base;
     update_profile_for_nick := fun _ _ => Returns tt;
     get_profile := fun _ _ => Returns (PDict [("speech", PDict [])]);
     get_nick_profiles := fun _ nicks =>
       match nicks with
       | PNone => Raises (type_error "'NoneType' object is not iterable")
       | _ => Returns (PDict [])
       end |}.

(** Two requests, the first on a file stream whose read fails, and a
    schedule that runs the first to its end and then the second. *)
Definition one_broken_request : list (World * pyval) :=
  [(broken_studio, PStr "en-us");
   (studio true (PBool true) true true true 1, PStr "en-us")].

Definition one_after_the_other : list nat := [0; 0; 0; 0; 1; 1; 1; 1; 1; 1; 1].

(** The world [w] with another audio decoder. *)
Definition with_decoder (w : World) (d : trace -> pyval -> result pyval) : World :=
  mkWorld (API_STT w) (config w) (wait_for_response w) (str_message w)
    (isfile w) d (get_audio_file_stream w) (stream_read w)
    (stream_start w) (stream_data w) (stream_stop w) (transcribe w)
    (get_context w) (time_time w) (merge_dict w)
    (update_profile_for_nick w) (get_profile w) (get_nick_profiles w).

(** The world [w] with another batch engine. *)
Definition with_batch_engine (w : World)
    (f : trace -> pyval -> pyval -> result pyval) : World :=
  mkWorld (API_STT w) (config w) (wait_for_response w) (str_message w)
    (isfile w) (decode w) (get_audio_file_stream w) (stream_read w)
    (stream_start w) (stream_data w) (stream_stop w) f
    (get_context w) (time_time w) (merge_dict w)
    (update_profile_for_nick w) (get_profile w) (get_nick_profiles w).

(** The world [w] with another configuration. *)
Definition with_config (w : World) (c : dict) : World :=
  mkWorld (API_STT w) c (wait_for_response w) (str_message w)
    (isfile w) (decode w) (get_audio_file_stream w) (stream_read w)
    (stream_start w) (stream_data w) (stream_stop w) (transcribe w)
    (get_context w) (time_time w) (merge_dict w)
    (update_profile_for_nick w) (get_profile w) (get_nick_profiles w).

Definition could_not_decode : exn :=
  mkExn (OtherException "CouldntDecodeError") [PStr "Decoding failed"].

(** A world where files exist but do not decode. *)
Definition corrupt_studio : World :=
  with_decoder deaf_studio (fun _ _ => Raises could_not_decode).

Definition get_stt_empty : bus_message := Message "neon.get_stt" [] [].

Definition get_stt_german : bus_message :=
  Message "neon.get_stt"
    [("audio_file", PStr "sample.wav"); ("lang", PStr "de-de")]
    [("ident", PStr "req-17")].

Definition audio_input_plain : bus_message :=
  Message "neon.audio_input" [("audio_file", PStr "sample.wav")]
    [("source", PStr "mobile_app")].

(** The routing context [build_context] makes for [audio_input_plain]
    in the sample world. *)
Definition plain_context : dict :=
  [("client_name", PStr "mycroft_listener");
   ("source", PStr "mobile_app");
   ("destination", PList [PStr "skills"]);
   ("audio_parser_data", PDict []);
   ("client", PNone);
   ("neon_should_respond", PNone);
   ("username", PNone);
   ("timing", PDict [("start", PNone); ("transcribed", PFloat "1.5")]);
   ("ident", PFloat "1.5")].

Definition klat_mobile : bus_message :=
  Message "recognizer_loop:klat_utterance"
    [("user", PStr "guest"); ("nano", PStr "mobile");
     ("raw_audio", PStr "shout.wav"); ("shout_text", PStr "hello there");
     ("need_transcription", PBool true)] [].

Definition mobile_locals : klat_locals :=
  mkKlat (PStr "en") "sid-None-None-guest-mobile" (PDict []) true "mobile"
    (PFloat "1.5").


Definition heard_event_with_data : dict :=
  [("utterances", PList [PStr "hello"]); ("raw_audio", PObj "AudioData");
   ("data", PDict [("ident", PStr "from data"); ("user", PStr "guest")]);
   ("ident", PStr "42")].

(** The context [handle_utterance] starts from. *)
Definition listener_context_of (raw_audio timing : pyval) : dict :=
  [("client_name", PStr "mycroft_listener");
   ("source", PStr "audio");
   ("raw_audio", raw_audio);
   ("destination", PList [PStr "skills"]);
   ("timing", timing)].

Definition spoken_event : dict := [("utterance", PStr "hello")].

Definition audio_output_start : bus_message :=
  Message "recognizer_loop:audio_output_start" [] [].

(* ------------------------------------------------------------------ *)
(** ** Reasoning about runs                                             *)
(* ------------------------------------------------------------------ *)

Ltac unfold_monad :=
  repeat (progress (unfold bind, ret, raise, call, tell, log, emit, of_result,
                      try_except, getitem, pop;
                    cbv beta iota zeta; cbn [negb])).

Lemma dict_lookup_remove_ne (d : dict) (k k' : string) :
  k <> k' -> dict_lookup (dict_remove d k) k' = dict_lookup d k'.
Proof.
  intros Hne. induction d as [|[k0 v0] d IH]; simpl; [reflexivity|].
  destruct (k0 =? k) eqn:Ek.
  - apply String.eqb_eq in Ek. subst k0.
    destruct (k =? k') eqn:Ek'; [apply String.eqb_eq in Ek'; contradiction|reflexivity].
  - simpl. destruct (k0 =? k'); [reflexivity|exact IH].
Qed.

Lemma dict_has_remove_ne (d : dict) (k k' : string) :
  k <> k' -> dict_has (dict_remove d k) k' = dict_has d k'.
Proof. intros H. unfold dict_has. now rewrite dict_lookup_remove_ne. Qed.

Lemma dict_lookup_set_eq (d : dict) (k : string) (v : pyval) :
  dict_lookup (dict_set d k v) k = Some v.
Proof.
  induction d as [|[k0 v0] d IH]; simpl.
  - now rewrite String.eqb_refl.
  - destruct (k0 =? k) eqn:E; simpl; [now rewrite String.eqb_refl|now rewrite E].
Qed.

Lemma dict_lookup_set_ne (d : dict) (k k' : string) (v : pyval) :
  k <> k' -> dict_lookup (dict_set d k v) k' = dict_lookup d k'.
Proof.
  intros Hne. induction d as [|[k0 v0] d IH]; simpl.
  - destruct (k =? k') eqn:E; [apply String.eqb_eq in E; contradiction|reflexivity].
  - destruct (k0 =? k) eqn:E; simpl.
    + apply String.eqb_eq in E. subst k0.
      destruct (k =? k') eqn:E'; [apply String.eqb_eq in E'; contradiction|reflexivity].
    + destruct (k0 =? k'); [reflexivity|exact IH].
Qed.

(** *** The utterance publish protocol *)

Section Publish.

Variable w : World.

(** With an [ident] in the context: one blocking request with timeout 10;
    no reply, an error is logged and the answer is [False]. *)
Lemma emit_utterance_timeout (m : bus_message) (ident : pyval) (t : trace) :
  dict_lookup (msg_context m) "ident" = Some ident ->
  wait_for_response w t m 10 = Returns None ->
  _emit_utterance_to_skills w m t =
    (Ok false,
     t ++ [EvWaitForResponse m 10;
           EvLog LError ("Skills didn't handle " ++ py_str ident ++ "!")%string])%list.
Proof.
  intros Hid Hresp. unfold _emit_utterance_to_skills. unfold_monad.
  rewrite Hid. cbv beta iota. rewrite Hresp. now rewrite <- app_assoc.
Qed.

(** With an [ident] in the context and a reply: the answer is [True]. *)
Lemma emit_utterance_acknowledged (m reply : bus_message) (ident : pyval)
    (t : trace) :
  dict_lookup (msg_context m) "ident" = Some ident ->
  wait_for_response w t m 10 = Returns (Some reply) ->
  _emit_utterance_to_skills w m t = (Ok true, (t ++ [EvWaitForResponse m 10])%list).
Proof.
  intros Hid Hresp. unfold _emit_utterance_to_skills. unfold_monad.
  rewrite Hid. cbv beta iota. now rewrite Hresp.
Qed.

(** Never more than one request, whatever the context and the bus do. *)
Lemma emit_utterance_at_most_once (m : bus_message) (t : trace) :
  count is_publish (snd (_emit_utterance_to_skills w m t)) <= S (count is_publish t).
Proof.
  unfold _emit_utterance_to_skills. unfold_monad.
  destruct (dict_lookup (msg_context m) "ident"); simpl; [|lia].
  destruct (wait_for_response w t m 10) as [[r|]|e]; simpl;
    unfold count; rewrite ?filter_app, ?length_app; simpl; lia.
Qed.

End Publish.

(** C4 (the code departs from the claim): the publish protocol is to emit
    exactly one message on every call and to answer false, without
    raising, when no acknowledgment arrives.  On a message whose context
    has no [ident] the call raises [KeyError('ident')] before anything is
    emitted: the trace is left as it was. *)
Theorem emit_utterance_without_ident_raises (w : World) (t : trace) :
  _emit_utterance_to_skills w utterance_without_ident t =
    (Raise (key_error "ident"), t)
  /\ count is_publish (snd (_emit_utterance_to_skills w utterance_without_ident t))
     = count is_publish t.
Proof. split; reflexivity. Qed.

(** C5 (the code departs from the claim): the ident is to be generated
    when the utterance brings none.  [handle_utterance] copies an [ident]
    only when the event has one; for an event with [utterances] and
    [raw_audio] but neither [data] nor [ident], the publish step raises
    [KeyError('ident')] and nothing reaches the bus. *)
Theorem handle_utterance_without_ident_raises (w : World) (event : dict)
    (utterances raw_audio : pyval) (t : trace) :
  dict_lookup event "utterances" = Some utterances ->
  dict_lookup event "raw_audio" = Some raw_audio ->
  dict_has event "data" = false ->
  dict_has event "ident" = false ->
  handle_utterance w event t =
    (Raise (key_error "ident"),
     (t ++ [EvLog LInfo ("Utterance: " ++ py_str utterances)%string])%list).
Proof.
  intros Hu Ha Hd Hi. unfold handle_utterance, dict_pop_default. unfold_monad.
  rewrite Hu. unfold_monad. rewrite Ha. unfold_monad.
  rewrite !dict_has_remove_ne by discriminate. rewrite Hd. unfold_monad.
  rewrite !dict_has_remove_ne by discriminate. rewrite Hi. reflexivity.
Qed.

Lemma handle_utterance_without_ident_raises_witness :
  handle_utterance (studio false (PBool true) true true true 0)
    [("utterances", PList [PStr "hello"]); ("raw_audio", PObj "AudioData")] [] =
    (Raise (key_error "ident"), [EvLog LInfo "Utterance: ['hello']"]).
Proof.
  apply (@handle_utterance_without_ident_raises
           (studio false (PBool true) true true true 0)
           [("utterances", PList [PStr "hello"]); ("raw_audio", PObj "AudioData")]
           (PList [PStr "hello"]) (PObj "AudioData") []); reflexivity.
Defined.

(** When the event does bring an [ident], it is the one published. *)
Lemma handle_utterance_with_ident (w : World) (event : dict)
    (utterances raw_audio ident : pyval) (t : trace) :
  dict_lookup event "utterances" = Some utterances ->
  dict_lookup event "raw_audio" = Some raw_audio ->
  dict_has event "data" = false ->
  dict_lookup event "ident" = Some ident ->
  exists m,
    dict_lookup (msg_context m) "ident" = Some ident /\
    handle_utterance w event t =
      _emit_utterance_to_skills w m
        (t ++ [EvLog LInfo ("Utterance: " ++ py_str utterances)%string])%list.
Proof.
  intros Hu Ha Hd Hi. unfold handle_utterance, dict_pop_default.
  eexists. split; cycle 1.
  - unfold_monad. rewrite Hu. unfold_monad. rewrite Ha. unfold_monad.
    rewrite !dict_has_remove_ne by discriminate. rewrite Hd. unfold_monad.
    unfold dict_has. rewrite !dict_lookup_remove_ne by discriminate.
    rewrite Hi. unfold_monad. reflexivity.
  - reflexivity.
Qed.

(** *** Microphone muting while audio plays *)

(** C7: with [mute_during_output] off, audio-output-start and
    audio-output-end call nothing at all (the trace is unchanged, so
    neither [mute] nor [unmute] is invoked); with it on, start calls
    [mute] once and end calls [unmute] once. *)
Theorem mute_during_output_gates_listener (w : World) (m : bus_message)
    (t : trace) :
  (flag_on w = false ->
     snd (handle_audio_start w m t) = t /\ snd (handle_audio_end w m t) = t) /\
  (flag_on w = true ->
     handle_audio_start w m t = (Ok tt, (t ++ [EvMute])%list) /\
     handle_audio_end w m t = (Ok tt, (t ++ [EvUnmute])%list)).
Proof.
  unfold flag_on, handle_audio_start, handle_audio_end, mute_during_output, py_get.
  destruct (dict_get (config w) "listener") as [| | | | | |d|];
    try (split; [intros _; split; reflexivity | discriminate]).
  unfold_monad. split; intros ->; split; reflexivity.
Qed.

Lemma mute_during_output_gates_listener_witness :
  (snd (handle_audio_start (studio false (PBool false) true true true 0)
          (Message "recognizer_loop:audio_output_start" [] []) [EvMute]) = [EvMute] /\
   snd (handle_audio_end (studio false (PBool false) true true true 0)
          (Message "recognizer_loop:audio_output_start" [] []) [EvMute]) = [EvMute]) /\
  (handle_audio_start (studio false (PBool true) true true true 0)
     (Message "recognizer_loop:audio_output_start" [] []) [] = (Ok tt, [EvMute]) /\
   handle_audio_end (studio false (PBool true) true true true 0)
     (Message "recognizer_loop:audio_output_start" [] []) [] = (Ok tt, [EvUnmute])).
Proof.
  split.
  - apply (proj1 (mute_during_output_gates_listener
                    (studio false (PBool false) true true true 0)
                    (Message "recognizer_loop:audio_output_start" [] []) [EvMute])).
    reflexivity.
  - apply (proj2 (mute_during_output_gates_listener
                    (studio false (PBool true) true true true 0)
                    (Message "recognizer_loop:audio_output_start" [] []) [])).
    reflexivity.
Defined.

(** *** Footprints *)

Section Footprint.

Variable P : event -> bool.

Lemma only_ret {A} (a : A) : only P (ret a).
Proof. intros t. exists []. now rewrite app_nil_r. Qed.

Lemma only_raise {A} (e : exn) : only P (@raise A e).
Proof. intros t. exists []. now rewrite app_nil_r. Qed.

Lemma only_out_of_fuel {A} : only P (fun t => (@OutOfFuel A, t)).
Proof. intros t. exists []. now rewrite app_nil_r. Qed.

Lemma only_tell (e : event) : P e = true -> only P (tell e).
Proof. intros H t. exists [e]. simpl. now rewrite H. Qed.

Lemma only_call {A} (e : event) (o : trace -> result A) :
  P e = true -> only P (call e o).
Proof.
  intros H t. exists [e]. unfold call. destruct (o t); simpl; now rewrite H.
Qed.

Lemma only_of_result {A} (r : result A) : only P (of_result r).
Proof. destruct r; [apply only_ret|apply only_raise]. Qed.

Lemma only_bind {A B} (m : M A) (k : A -> M B) :
  only P m -> (forall a, only P (k a)) -> only P (bind m k).
Proof.
  intros Hm Hk t. unfold bind. destruct (Hm t) as (d & Hd & Pd).
  destruct (m t) as [[a|e|] t']; simpl in Hd; subst t'.
  - destruct (Hk a (t ++ d)%list) as (d' & Hd' & Pd').
    exists (d ++ d')%list. rewrite Hd', app_assoc, forallb_app, Pd, Pd'. now split.
  - now exists d.
  - now exists d.
Qed.

Lemma only_try_except {A} (body : M A) (handled : exn -> bool)
    (handler : exn -> M A) :
  only P body -> (forall e, only P (handler e)) ->
  only P (try_except body handled handler).
Proof.
  intros Hm Hk t. unfold try_except. destruct (Hm t) as (d & Hd & Pd).
  destruct (body t) as [[a|e|] t']; simpl in Hd; subst t'.
  - now exists d.
  - destruct (handled e); [|now exists d].
    destruct (Hk e (t ++ d)%list) as (d' & Hd' & Pd').
    exists (d ++ d')%list. rewrite Hd', app_assoc, forallb_app, Pd, Pd'. now split.
  - now exists d.
Qed.

Lemma only_if {A} (b : bool) (m1 m2 : M A) :
  only P m1 -> only P m2 -> only P (if b then m1 else m2).
Proof. now destruct b. Qed.

End Footprint.

Create HintDb footprint.
#[local] Hint Resolve only_ret only_raise only_out_of_fuel only_tell only_call
  only_of_result only_bind only_try_except only_if : footprint.

(** A run that only adds events outside [Q] leaves the number of [Q]
    events as it was. *)
Lemma only_count {A} (P Q : event -> bool) (m : M A) (t : trace) :
  only P m -> (forall e, P e = true -> Q e = false) ->
  count Q (snd (m t)) = count Q t.
Proof.
  intros Hm HPQ. destruct (Hm t) as (d & -> & Pd).
  unfold count. rewrite filter_app, length_app.
  assert (filter Q d = []) as ->; [|simpl; lia].
  induction d as [|e d IH]; [reflexivity|]. simpl in *.
  apply andb_true_iff in Pd as [Pe Pd]. now rewrite (HPQ e Pe), IH.
Qed.

(** *** The STT dispatch coordinator *)

Lemma is_stt_not_publish (e : event) : is_stt e = true -> is_publish e = false.
Proof. now destruct e. Qed.


Section Dispatch.

Variable w : World.

Lemma only_with_lock {A} (P : event -> bool) (body : M A) :
  P EvAcquire = true -> P EvRelease = true -> only P body ->
  only P (with_lock body).
Proof.
  intros Ha Hr Hb t. unfold with_lock, bind, tell.
  destruct (Hb (t ++ [EvAcquire])%list) as (d & Hd & Pd).
  destruct (body (t ++ [EvAcquire])%list) as [[a|e|] t']; simpl in Hd; subst t'; simpl.
  - exists ([EvAcquire] ++ d ++ [EvRelease])%list.
    rewrite !forallb_app, Pd. simpl. rewrite Ha, Hr, <- !app_assoc. now split.
  - exists ([EvAcquire] ++ d ++ [EvRelease])%list.
    rewrite !forallb_app, Pd. simpl. rewrite Ha, Hr, <- !app_assoc. now split.
  - exists ([EvAcquire] ++ d)%list.
    rewrite !forallb_app, Pd. simpl. rewrite Ha, <- !app_assoc. now split.
Qed.

Lemma only_feed_step : only is_stt (feed_step w).
Proof. unfold feed_step. auto 10 with footprint. Qed.

Lemma only_feed_loop (fuel : nat) : only is_stt (feed_loop w fuel).
Proof.
  induction fuel as [|fuel IH]; simpl; [apply only_out_of_fuel|].
  apply only_bind; [apply only_feed_step|].
  intros [|]; [exact IH|apply only_ret].
Qed.

Lemma only_stt_transcriptions (fuel : nat) (wav_file lang : pyval) :
  only is_stt (stt_transcriptions w fuel wav_file lang).
Proof.
  unfold stt_transcriptions, stream_cycle.
  apply only_bind; [now apply only_call|]. intros audio_data.
  apply only_bind; [|intros; apply only_ret].
  apply only_if; [|now apply only_call].
  apply only_bind; [now apply only_call|]. intros _.
  apply only_with_lock; try reflexivity.
  apply only_bind; [now apply only_call|]. intros _.
  apply only_bind; [apply only_feed_loop|]. intros _.
  now apply only_call.
Qed.

Lemma only_get_stt_from_file (fuel : nat) (wav_file : pyval)
    (lang : option pyval) :
  only is_stt (_get_stt_from_file w fuel wav_file lang).
Proof.
  unfold _get_stt_from_file.
  apply only_bind; [apply only_stt_transcriptions|]. intros [audio_data tr].
  apply only_bind; [now apply only_call|]. intros [a c]. apply only_ret.
Qed.

(** The batch engine is called once and the loop is never entered: no
    amount of fuel is needed. *)
Lemma batch_needs_no_fuel (fuel : nat) (wav_file : pyval) (lang : option pyval)
    (t : trace) :
  API_STT w = false ->
  fst (_get_stt_from_file w fuel wav_file lang t) <> OutOfFuel.
Proof.
  intros Hapi. unfold _get_stt_from_file, stt_transcriptions. rewrite Hapi.
  unfold_monad.
  destruct (decode w t wav_file); [|discriminate].
  destruct (transcribe w _ a _); [|discriminate].
  destruct (get_context w _ a) as [[? ?]|]; discriminate.
Qed.

Lemma end_of_data_breaks (t t' : trace) :
  end_of_data w t t' -> feed_step w t = (Ok Break, t').
Proof.
  intros [e Hr He | c e Hr Hd He]; unfold feed_step; unfold_monad.
  - now rewrite Hr, He.
  - rewrite Hr. cbv beta iota. rewrite Hd, He. now rewrite <- app_assoc.
Qed.

Lemma feed_loop_leaves (k : nat) : forall (t tk tb : trace) (fuel : nat),
  fed w k t = Some tk ->
  feed_step w tk = (Ok Break, tb) ->
  k < fuel ->
  feed_loop w fuel t = (Ok tt, tb).
Proof.
  induction k as [|k IH]; intros t tk tb fuel Hfed Hbrk Hlt;
    (destruct fuel as [|fuel]; [lia|]); simpl in *.
  - injection Hfed as <-. unfold bind. now rewrite Hbrk.
  - unfold bind. destruct (feed_step w t) as [[[|]|e|] t1]; try discriminate.
    apply (IH t1 tk tb fuel Hfed Hbrk). lia.
Qed.

End Dispatch.

(** C6: an [EOFError] raised mid-stream by the read or by the feed, after
    [k] chunks went through, ends the loop normally: [stream_stop] is
    the next call, the lock is released, and what [stream_stop] returned
    is the transcript list (what it raised is raised). *)
Theorem eof_ends_stream_normally (w : World) (fuel k : nat)
    (wav_file lang audio : pyval) (t tk tb : trace) :
  API_STT w = true ->
  decode w t wav_file = Returns audio ->
  get_audio_file_stream w (t ++ [EvDecode wav_file]) wav_file = Returns tt ->
  stream_start w (t ++ [EvDecode wav_file; EvOpenStream wav_file; EvAcquire]) lang
    = Returns tt ->
  fed w k (t ++ [EvDecode wav_file; EvOpenStream wav_file; EvAcquire;
                 EvStreamStart lang]) = Some tk ->
  end_of_data w tk tb ->
  k < fuel ->
  stt_transcriptions w fuel wav_file lang t =
    (match stream_stop w tb with
     | Returns transcriptions => Ok (audio, transcriptions)
     | Raises e => Raise e
     end,
     (tb ++ [EvStreamStop; EvRelease])%list).
Proof.
  intros Hapi Hdec Hopen Hstart Hfed Heof Hlt.
  apply end_of_data_breaks in Heof.
  unfold stt_transcriptions, with_lock, stream_cycle. rewrite Hapi. unfold_monad.
  rewrite Hdec. cbv beta iota. rewrite Hopen. cbv beta iota.
  rewrite <- ?app_assoc. simpl app. rewrite Hstart. cbv beta iota.
  rewrite <- ?app_assoc. simpl app.
  erewrite feed_loop_leaves; [|exact Hfed|exact Heof|exact Hlt].
  destruct (stream_stop w tb); now rewrite <- app_assoc.
Qed.

Lemma eof_ends_stream_normally_witness :
  stt_transcriptions (studio true (PBool true) true true true 2) 3
    (PStr "sample.wav") (PStr "en-us") [] =
    (Ok (PObj "AudioData", PList [PStr "hello"]),
     [EvDecode (PStr "sample.wav"); EvOpenStream (PStr "sample.wav"); EvAcquire;
      EvStreamStart (PStr "en-us");
      EvRead 1024; EvStreamData (PObj "chunk");
      EvRead 1024; EvStreamData (PObj "chunk");
      EvRead 1024; EvStreamStop; EvRelease]).
Proof.
  apply (@eof_ends_stream_normally (studio true (PBool true) true true true 2)
           3 2 (PStr "sample.wav") (PStr "en-us") (PObj "AudioData") []
           [EvDecode (PStr "sample.wav"); EvOpenStream (PStr "sample.wav");
            EvAcquire; EvStreamStart (PStr "en-us");
            EvRead 1024; EvStreamData (PObj "chunk");
            EvRead 1024; EvStreamData (PObj "chunk")]
           [EvDecode (PStr "sample.wav"); EvOpenStream (PStr "sample.wav");
            EvAcquire; EvStreamStart (PStr "en-us");
            EvRead 1024; EvStreamData (PObj "chunk");
            EvRead 1024; EvStreamData (PObj "chunk"); EvRead 1024]);
    try reflexivity.
  - apply (@eof_on_read (studio true (PBool true) true true true 2)
             [EvDecode (PStr "sample.wav"); EvOpenStream (PStr "sample.wav");
              EvAcquire; EvStreamStart (PStr "en-us");
              EvRead 1024; EvStreamData (PObj "chunk");
              EvRead 1024; EvStreamData (PObj "chunk")]
             (mkExn EOFError [])); reflexivity.
  - lia.
Defined.

(** *** What comes first in a run *)

Lemma only_weaken {A} (P Q : event -> bool) (m : M A) :
  (forall e, P e = true -> Q e = true) -> only P m -> only Q m.
Proof.
  intros HPQ Hm t. destruct (Hm t) as (d & Hd & Pd). exists d. split; [exact Hd|].
  rewrite forallb_forall in *. auto.
Qed.

Lemma only_grows {A} (P : event -> bool) (m : M A) : only P m -> grows m.
Proof. apply only_weaken. reflexivity. Qed.

Lemma starts_with_call {A} (e : event) (o : trace -> result A) :
  starts_with e (call e o).
Proof. intros t. exists []. unfold call. now destruct (o t). Qed.

Lemma starts_with_bind {A B} (e : event) (m : M A) (k : A -> M B) :
  starts_with e m -> (forall a, grows (k a)) -> starts_with e (bind m k).
Proof.
  intros Hm Hk t. unfold bind. destruct (Hm t) as (d & Hd).
  destruct (m t) as [[a|x|] t']; simpl in Hd; subst t'; try now exists d.
  destruct (Hk a (t ++ e :: d)) as (d' & Hd' & _).
  exists (d ++ d'). now rewrite Hd', <- app_assoc.
Qed.

Lemma starts_with_try_except {A} (e : event) (body : M A)
    (handled : exn -> bool) (handler : exn -> M A) :
  starts_with e body -> (forall x, grows (handler x)) ->
  starts_with e (try_except body handled handler).
Proof.
  intros Hm Hk t. unfold try_except. destruct (Hm t) as (d & Hd).
  destruct (body t) as [[a|x|] t']; simpl in Hd; subst t'; try now exists d.
  destruct (handled x); [|now exists d].
  destruct (Hk x (t ++ e :: d)) as (d' & Hd' & _).
  exists (d ++ d'). now rewrite Hd', <- app_assoc.
Qed.

(** The first thing [_get_stt_from_file] does is to decode the file. *)
Lemma get_stt_from_file_decodes_first (w : World) (fuel : nat)
    (wav_file : pyval) (lang : option pyval) :
  starts_with (EvDecode wav_file) (_get_stt_from_file w fuel wav_file lang).
Proof.
  unfold _get_stt_from_file, stt_transcriptions.
  apply starts_with_bind.
  - apply starts_with_bind; [apply starts_with_call|].
    intros a. apply only_grows with (P := is_stt).
    apply only_bind; [|intros; apply only_ret].
    apply only_if; [|now apply only_call].
    apply only_bind; [now apply only_call|]. intros _.
    apply only_with_lock; try reflexivity.
    unfold stream_cycle.
    apply only_bind; [now apply only_call|]. intros _.
    apply only_bind; [apply only_feed_loop|]. intros _. now apply only_call.
  - intros [a tr]. apply only_grows with (P := is_stt).
    apply only_bind; [now apply only_call|]. intros [? ?]. apply only_ret.
Qed.

(** C3, as amended: there is no recovery around the context extractor.
    Once the transcription stage has returned, [_get_stt_from_file] calls
    the extractor and raises what it raises (nothing is returned and
    nothing is logged); when the extractor returns, the engine's
    transcript list is returned unchanged next to the extractor's
    context. *)
Theorem extractor_failure_propagates (w : World) (fuel : nat)
    (wav_file : pyval) (lang : option pyval) (audio transcriptions : pyval)
    (t t1 : trace) :
  stt_transcriptions w fuel wav_file
    (match lang with Some l => l | None => PStr "en-us" end) t
    = (Ok (audio, transcriptions), t1) ->
  _get_stt_from_file w fuel wav_file lang t =
    (match get_context w t1 audio with
     | Returns (a, audio_context) => Ok (a, audio_context, transcriptions)
     | Raises e => Raise e
     end,
     t1 ++ [EvGetContext audio]).
Proof.
  intros Hstt. unfold _get_stt_from_file. unfold bind at 1. rewrite Hstt.
  unfold_monad. now destruct (get_context w t1 audio) as [[a c]|e].
Qed.

Lemma extractor_failure_propagates_witness :
  _get_stt_from_file (studio false (PBool true) true true false 0) 0
    (PStr "sample.wav") None [] =
    (Raise (mkExn (OtherException "RuntimeError") [PStr "parser failed"]),
     [EvDecode (PStr "sample.wav");
      EvTranscribe (PObj "AudioData") (PStr "en-us");
      EvGetContext (PObj "AudioData")]).
Proof.
  apply (@extractor_failure_propagates
           (studio false (PBool true) true true false 0) 0
           (PStr "sample.wav") None (PObj "AudioData") (PList [PStr "hello"]) []
           [EvDecode (PStr "sample.wav");
            EvTranscribe (PObj "AudioData") (PStr "en-us")]).
  reflexivity.
Defined.

(** C3 as stated fails: the batch engine returns its transcript list, the
    extractor raises, and the request as a whole raises; no result with an
    absent context comes back. *)
Lemma extractor_failure_is_not_absorbed :
  let w := studio false (PBool true) true true false 0 in
  transcribe w [EvDecode (PStr "sample.wav")] (PObj "AudioData") (PStr "en-us")
    = Returns (PList [PStr "hello"]) /\
  (exists e, get_context w [EvDecode (PStr "sample.wav");
                            EvTranscribe (PObj "AudioData") (PStr "en-us")]
               (PObj "AudioData") = Raises e) /\
  ~ (exists audio t',
       _get_stt_from_file w 0 (PStr "sample.wav") (Some (PStr "en-us")) [] =
         (Ok (audio, PNone, PList [PStr "hello"]), t')).
Proof.
  split; [reflexivity|]. split; [eexists; reflexivity|].
  intros (audio & t' & H). discriminate H.
Qed.

(** *** The query form: [handle_get_stt] *)

Lemma get_stt_reply_decodes_first (w : World) (fuel : nat) (m : bus_message)
    (ident wav_file lang : pyval) :
  starts_with (EvDecode wav_file) (get_stt_reply w fuel m ident wav_file lang).
Proof.
  unfold get_stt_reply. apply starts_with_try_except.
  - apply starts_with_bind; [apply get_stt_from_file_decodes_first|].
    intros [[? ?] ?]. unfold emit. now apply only_tell.
  - intros x. unfold log, emit.
    apply only_bind; [now apply only_tell|]. intros _. now apply only_tell.
Qed.

(** C2 (the code departs from the claim): a path that names no file is to
    be answered with the [Not found!] payload alone, without any
    transcription attempt.  There is no [return] after that reply: the
    handler goes on into the [try] statement, so the next call is the
    audio decoder on the same path. *)
Theorem missing_file_is_still_decoded (w : World) (fuel : nat)
    (m : bus_message) (t : trace) :
  let wav_file_path := dict_get (msg_data m) "audio_file" in
  let ident := py_or (dict_get (msg_context m) "ident")
                 (PStr "neon.get_stt.response") in
  truthy wav_file_path = true ->
  isfile w t wav_file_path = Returns false ->
  exists rest,
    snd (handle_get_stt w fuel m t) =
      t ++ [EvIsFile wav_file_path;
            EvEmit (Reply m ident
                      [("error", PStr (py_str wav_file_path ++ " Not found!")%string)]);
            EvDecode wav_file_path] ++ rest.
Proof.
  intros wav ident Htrue Hfile. unfold handle_get_stt.
  unfold_monad. fold wav ident. rewrite Htrue. unfold_monad. rewrite Hfile.
  unfold_monad.
  destruct (get_stt_reply_decodes_first w fuel m ident wav
              (dict_get (msg_data m) "lang")
              ((t ++ [EvIsFile wav]) ++
               [EvEmit (Reply m ident
                          [("error", PStr (py_str wav ++ " Not found!")%string)])]))
    as (rest & Hrest).
  exists rest. rewrite Hrest. now rewrite <- !app_assoc.
Qed.

Lemma missing_file_is_still_decoded_witness :
  exists rest,
    snd (handle_get_stt (studio false (PBool true) false true true 0) 0
           get_stt_missing []) =
      [] ++ [EvIsFile (PStr "missing.wav");
             EvEmit (Reply get_stt_missing (PStr "neon.get_stt.response")
                       [("error", PStr "missing.wav Not found!")]);
             EvDecode (PStr "missing.wav")] ++ rest.
Proof.
  apply (@missing_file_is_still_decoded
           (studio false (PBool true) false true true 0) 0 get_stt_missing []);
    reflexivity.
Defined.

(** The whole run on that request: two replies are emitted, the second
    one carrying the decoder's exception. *)
Example get_stt_missing_file_run :
  handle_get_stt (studio false (PBool true) false true true 0) 0
    get_stt_missing [] =
    (Ok tt,
     [EvIsFile (PStr "missing.wav");
      EvEmit (Reply get_stt_missing (PStr "neon.get_stt.response")
                [("error", PStr "missing.wav Not found!")]);
      EvDecode (PStr "missing.wav");
      EvLog LError "No such file or directory";
      EvEmit (Reply get_stt_missing (PStr "neon.get_stt.response")
                [("error", PStr "FileNotFoundError('No such file or directory')")])]).
Proof. reflexivity. Qed.

(** The default of the [lang] parameter applies to a call that leaves
    the argument out, and only to such a call. *)
Lemma lang_default_when_left_out (w : World) (fuel : nat) (wav_file : pyval) :
  _get_stt_from_file w fuel wav_file None =
  _get_stt_from_file w fuel wav_file (Some (PStr "en-us")).
Proof. reflexivity. Qed.

(** C8 (the code departs from the claim): an omitted language tag is to
    be replaced by [en-us].  [handle_get_stt] reads [lang] with
    [message.data.get("lang")] and passes the result on, so for a request
    without [lang] the parameter default never applies and the batch
    engine is called with [None]. *)
Theorem omitted_lang_reaches_engine_as_null (w : World) (fuel : nat)
    (m : bus_message) (audio : pyval) (t : trace) :
  let wav_file_path := dict_get (msg_data m) "audio_file" in
  dict_lookup (msg_data m) "lang" = None ->
  truthy wav_file_path = true ->
  isfile w t wav_file_path = Returns true ->
  API_STT w = false ->
  decode w (t ++ [EvIsFile wav_file_path]) wav_file_path = Returns audio ->
  exists rest,
    snd (handle_get_stt w fuel m t) =
      t ++ [EvIsFile wav_file_path; EvDecode wav_file_path;
            EvTranscribe audio PNone] ++ rest.
Proof.
  intros wav Hlang Htrue Hfile Hapi Hdec.
  assert (dict_get (msg_data m) "lang" = PNone) as Hnull
    by (unfold dict_get, dict_get_default; now rewrite Hlang).
  unfold handle_get_stt, get_stt_reply, _get_stt_from_file, stt_transcriptions.
  rewrite Hnull, Hapi.
  unfold_monad. fold wav. rewrite Htrue. unfold_monad. rewrite Hfile.
  unfold_monad. rewrite Hdec. unfold_monad.
  destruct (transcribe w _ audio PNone) as [tr|e]; unfold_monad.
  - destruct (get_context w _ audio) as [[a c]|e]; unfold_monad.
    + eexists. rewrite <- !app_assoc. reflexivity.
    + destruct (is_Exception e); eexists; rewrite <- !app_assoc; reflexivity.
  - destruct (is_Exception e); eexists; rewrite <- !app_assoc; reflexivity.
Qed.

Lemma omitted_lang_reaches_engine_as_null_witness :
  exists rest,
    snd (handle_get_stt (studio false (PBool true) true true true 0) 0
           get_stt_without_lang []) =
      [] ++ [EvIsFile (PStr "sample.wav"); EvDecode (PStr "sample.wav");
             EvTranscribe (PObj "AudioData") PNone] ++ rest.
Proof.
  apply (@omitted_lang_reaches_engine_as_null
           (studio false (PBool true) true true true 0) 0 get_stt_without_lang
           (PObj "AudioData") []); reflexivity.
Defined.

(** The same request against a streaming engine: the stream is opened
    with [None]. *)
Example get_stt_without_lang_streaming_run :
  snd (handle_get_stt (studio true (PBool true) true true true 1) 2
         get_stt_without_lang []) =
    [EvIsFile (PStr "sample.wav"); EvDecode (PStr "sample.wav");
     EvOpenStream (PStr "sample.wav"); EvAcquire; EvStreamStart PNone;
     EvRead 1024; EvStreamData (PObj "chunk"); EvRead 1024;
     EvStreamStop; EvRelease; EvGetContext (PObj "AudioData");
     EvEmit (Reply get_stt_without_lang (PStr "neon.get_stt.response")
               [("parser_data", PDict []);
                ("transcripts", PList [PStr "hello"])])].
Proof. reflexivity. Qed.

(** *** The injection form: [handle_audio_input] *)

Section AudioInput.

Variable w : World.

Lemma build_context_with_klat_data (m : bus_message) (t : trace) :
  truthy (dict_get (msg_context m) "klat_data") = true ->
  build_context w m t = (Raise not_callable, t ++ [EvTime; EvTime]).
Proof.
  intros Hk. unfold build_context, call_dict. unfold_monad. rewrite Hk.
  unfold_monad. now rewrite <- app_assoc.
Qed.

Lemma dict_get_set_ne (d : dict) (k k' : string) (v : pyval) :
  k <> k' -> dict_get (dict_set d k v) k' = dict_get d k'.
Proof.
  intros H. unfold dict_get, dict_get_default. now rewrite dict_lookup_set_ne.
Qed.

(** With a true [klat_data] in the context, the run is decided by how
    [_get_stt_from_file] ends. *)
Lemma audio_input_with_klat_data (fuel : nat) (m : bus_message) (t : trace) :
  let ident := py_or (dict_get (msg_context m) "ident")
                 (PStr "neon.audio_input.response") in
  truthy (dict_get (msg_context m) "klat_data") = true ->
  handle_audio_input w fuel m t =
    match _get_stt_from_file w fuel (dict_get (msg_data m) "audio_file")
            (Some (dict_get (msg_data m) "lang")) t with
    | (Ok (_, parser_data, _), t1) =>
        (Ok tt,
         t1 ++ [EvTime; EvTime; EvLog LError (str_exn not_callable);
                EvEmit (Reply (with_parser_data m parser_data) ident
                          [("error", PStr (repr_exn not_callable))])])
    | (Raise e, t1) =>
        if is_Exception e
        then (Ok tt,
              t1 ++ [EvLog LError (str_exn e);
                     EvEmit (Reply m ident [("error", PStr (repr_exn e))])])
        else (Raise e, t1)
    | (OutOfFuel, t1) => (OutOfFuel, t1)
    end.
Proof.
  intros ident Hk. unfold handle_audio_input. fold ident.
  unfold try_except at 1. unfold bind at 1.
  destruct (_get_stt_from_file w fuel _ _ t) as [[[[a pd] tr]|e|] t1].
  - fold (with_parser_data m pd).
    unfold try_except at 1. unfold bind at 1.
    rewrite build_context_with_klat_data
      by (unfold with_parser_data; simpl msg_context;
          rewrite dict_get_set_ne by discriminate; exact Hk).
    unfold_monad. simpl is_Exception. cbv iota. now rewrite <- !app_assoc.
  - destruct (is_Exception e); [|reflexivity].
    unfold_monad. now rewrite <- !app_assoc.
  - reflexivity.
Qed.

(** Without a true [klat_data], the context is built: once the
    transcription has returned, the utterance is published, once. *)
Lemma audio_input_without_klat_data (fuel : nat) (m : bus_message)
    (audio parser_data transcriptions : pyval) (t t1 : trace) :
  truthy (dict_get (msg_context m) "klat_data") = false ->
  _get_stt_from_file w fuel (dict_get (msg_data m) "audio_file")
    (Some (dict_get (msg_data m) "lang")) t
    = (Ok (audio, parser_data, transcriptions), t1) ->
  count is_publish (snd (handle_audio_input w fuel m t)) = S (count is_publish t).
Proof.
  intros Hk Hstt.
  assert (count is_publish t1 = count is_publish t) as Hpub.
  { pose proof (only_count is_publish t
                  (only_get_stt_from_file w fuel
                     (dict_get (msg_data m) "audio_file")
                     (Some (dict_get (msg_data m) "lang")))
                  is_stt_not_publish) as H.
    now rewrite Hstt in H. }
  assert (truthy (dict_get (dict_set (msg_context m) "audio_parser_data"
                              parser_data) "klat_data") = false) as Hk'
    by (rewrite dict_get_set_ne by discriminate; exact Hk).
  unfold handle_audio_input, _emit_utterance_to_skills, build_context.
  unfold_monad. rewrite Hstt. unfold_monad. cbn [msg_context].
  rewrite Hk'. unfold_monad.
  cbn [dict_lookup msg_context String.eqb Ascii.eqb Bool.eqb]. unfold_monad.
  match goal with
  | |- context [wait_for_response w ?t0 ?p 10] =>
      destruct (wait_for_response w t0 p 10) as [[r|]|e]
  end; unfold_monad;
    try (destruct (is_Exception e) eqn:He; unfold_monad; rewrite ?He);
    cbn [snd]; unfold count in *; rewrite ?filter_app, ?length_app;
    cbn [filter is_publish List.length]; lia.
Qed.

End AudioInput.

(** C9, as amended (a true [klat_data], not merely an entry): for an
    audio-input request whose context has a [klat_data] that is true
    (not null, not empty), the utterance is never published; once the
    transcription has returned, [build_context] raises the [TypeError] of
    calling a dictionary, and the handler logs it and replies with the
    [error] payload; an exception of class [Exception] raised by the
    transcription itself is answered the same way.  With a [klat_data]
    that is null or empty the failing call is not reached: once the
    transcription has returned, the utterance is published, once. *)
Theorem klat_data_blocks_publish (w : World) (fuel : nat) (m : bus_message)
    (t : trace) :
  let ident := py_or (dict_get (msg_context m) "ident")
                 (PStr "neon.audio_input.response") in
  let stt := _get_stt_from_file w fuel (dict_get (msg_data m) "audio_file")
               (Some (dict_get (msg_data m) "lang")) t in
  (truthy (dict_get (msg_context m) "klat_data") = true ->
   count is_publish (snd (handle_audio_input w fuel m t)) = count is_publish t /\
   (forall audio parser_data transcriptions,
      fst stt = Ok (audio, parser_data, transcriptions) ->
      handle_audio_input w fuel m t =
        (Ok tt,
         snd stt ++ [EvTime; EvTime; EvLog LError (str_exn not_callable);
                     EvEmit (Reply (with_parser_data m parser_data) ident
                               [("error", PStr (repr_exn not_callable))])])) /\
   (forall e,
      fst stt = Raise e -> is_Exception e = true ->
      handle_audio_input w fuel m t =
        (Ok tt,
         snd stt ++ [EvLog LError (str_exn e);
                     EvEmit (Reply m ident [("error", PStr (repr_exn e))])]))) /\
  (truthy (dict_get (msg_context m) "klat_data") = false ->
   forall audio parser_data transcriptions,
     fst stt = Ok (audio, parser_data, transcriptions) ->
     count is_publish (snd (handle_audio_input w fuel m t))
       = S (count is_publish t)).
Proof.
  intros ident stt. split; cycle 1.
  { intros Hk audio parser_data transcriptions Hstt.
    apply (@audio_input_without_klat_data w fuel m audio parser_data
             transcriptions t (snd stt) Hk).
    rewrite <- Hstt. unfold stt. apply surjective_pairing. }
  intros Hk.
  pose proof (audio_input_with_klat_data w fuel m t Hk) as Hrun.
  fold ident in Hrun. fold stt in Hrun.
  assert (count is_publish (snd stt) = count is_publish t) as Hstt.
  { apply only_count with (P := is_stt);
      [apply only_get_stt_from_file|apply is_stt_not_publish]. }
  destruct stt as [[[[a pd] tr]|e|] t1] eqn:E; simpl in *.
  - split; [|split].
    + rewrite Hrun. simpl. unfold count in *.
      rewrite filter_app, length_app. simpl. lia.
    + intros a' pd' tr' [= <- <- <-]. exact Hrun.
    + discriminate.
  - split; [|split].
    + rewrite Hrun. destruct (is_Exception e); simpl; [|exact Hstt].
      unfold count in *. rewrite filter_app, length_app. simpl. lia.
    + discriminate.
    + intros e' [= <-] He. now rewrite Hrun, He.
  - split; [|split]; try discriminate. now rewrite Hrun.
Qed.

Lemma klat_data_blocks_publish_witness :
  let w := studio false (PBool true) true true true 0 in
  let w' := studio false (PBool true) false true true 0 in
  count is_publish (snd (handle_audio_input w 0 audio_input_klat [])) = 0 /\
  handle_audio_input w 0 audio_input_klat [] =
    (Ok tt,
     [EvDecode (PStr "sample.wav"); EvTranscribe (PObj "AudioData") PNone;
      EvGetContext (PObj "AudioData"); EvTime; EvTime;
      EvLog LError "'dict' object is not callable";
      EvEmit (Reply (with_parser_data audio_input_klat (PDict []))
                (PStr "neon.audio_input.response")
                [("error", PStr (repr_exn not_callable))])]) /\
  handle_audio_input w' 0 audio_input_klat [] =
    (Ok tt,
     [EvDecode (PStr "sample.wav");
      EvLog LError "No such file or directory";
      EvEmit (Reply audio_input_klat (PStr "neon.audio_input.response")
                [("error",
                  PStr "FileNotFoundError('No such file or directory')")])]) /\
  count is_publish (snd (handle_audio_input w 0 audio_input_empty_klat [])) = 1.
Proof.
  intros w w'.
  destruct (@klat_data_blocks_publish w 0 audio_input_klat []) as (Htrue & _).
  destruct (Htrue eq_refl) as (Hcount & Hok & _).
  destruct (@klat_data_blocks_publish w' 0 audio_input_klat []) as (Htrue' & _).
  destruct (Htrue' eq_refl) as (_ & _ & Hraise).
  destruct (@klat_data_blocks_publish w 0 audio_input_empty_klat [])
    as (_ & Hfalse).
  split; [exact Hcount|]. split; [|split].
  - exact (Hok (PObj "AudioData") (PDict []) (PList [PStr "hello"]) eq_refl).
  - exact (Hraise (mkExn (OtherException "FileNotFoundError")
                     [PStr "No such file or directory"]) eq_refl eq_refl).
  - exact (Hfalse eq_refl (PObj "AudioData") (PDict []) (PList [PStr "hello"])
             eq_refl).
Defined.

(** C9 as stated fails: a context that contains a [klat_data] entry whose
    value is empty passes [if msg.context.get("klat_data")], the context
    is built, the utterance is published and the reply reports it. *)
Lemma empty_klat_data_is_published :
  let w := studio false (PBool true) true true true 0 in
  dict_has (msg_context audio_input_empty_klat) "klat_data" = true /\
  count is_publish (snd (handle_audio_input w 0 audio_input_empty_klat [])) = 1 /\
  filter is_emit (snd (handle_audio_input w 0 audio_input_empty_klat [])) =
    [EvEmit (Reply (with_parser_data audio_input_empty_klat (PDict []))
               (PStr "neon.audio_input.response")
               [("parser_data", PDict []);
                ("transcripts", PList [PStr "hello"]);
                ("skills_recv", PBool true)])].
Proof. repeat split. Qed.

(** *** The legacy klat transport: [handle_input_from_klat] *)

Section Klat.

Variable w : World.




End Klat.


Lemma count_snoc (p : event -> bool) (t : trace) (e : event) :
  count p (t ++ [e]) = count p t + (if p e then 1 else 0).
Proof.
  unfold count. rewrite filter_app, length_app. simpl. now destruct (p e).
Qed.





(** *** Concurrent requests: the invariant of the interleaved runs *)

Lemma next_pc_move (w : World) (lang : pyval) (h : trace) (p p' : pc) (e : event) :
  next_pc w lang h p = Some (e, p') -> move p e p'.
Proof.
  destruct p; simpl; intros [= <- <-]; try constructor.
  - destruct (stream_start w h lang); constructor.
  - destruct (stream_read w h 1024) as [d|x]; [constructor|].
    unfold after_raise. destruct (is_EOFError x); constructor.
  - destruct (stream_data w h data) as [d|x]; [constructor|].
    unfold after_raise. destruct (is_EOFError x); constructor.
  - destruct (stream_stop w h); constructor.
Qed.

Lemma step_cases (i : nat) (s s' : sys) :
  step i s = Some s' ->
  exists th e p',
    nth_error (threads s) i = Some th /\
    move (th_pc th) e p' /\
    threads s' = update_nth i (mkThread (th_world th) (th_lang th) p') (threads s) /\
    calls s' = calls s ++ [(i, e)] /\
    lock s' = match e with
              | EvAcquire => Some i
              | EvRelease => None
              | _ => lock s
              end /\
    (e = EvAcquire -> lock s = None).
Proof.
  unfold step. destruct (nth_error (threads s) i) as [th|] eqn:Hth; [|discriminate].
  destruct (next_pc _ _ _ _) as [[e p']|] eqn:Hnext; [|discriminate].
  apply next_pc_move in Hnext. intros H. exists th, e, p'.
  destruct Hnext; destruct (lock s) eqn:Hl; simpl in H; try discriminate;
    injection H as <-; simpl; repeat split; auto; try constructor;
    intros; discriminate.
Qed.

Lemma nth_error_update_nth_eq {A} (l : list A) (i : nat) (x y : A) :
  nth_error l i = Some y -> nth_error (update_nth i x l) i = Some x.
Proof.
  revert i. induction l as [|a l IH]; intros [|i]; simpl; try discriminate; auto.
Qed.

Lemma nth_error_update_nth_ne {A} (l : list A) (i j : nat) (x : A) :
  i <> j -> nth_error (update_nth i x l) j = nth_error l j.
Proof.
  revert i j. induction l as [|a l IH]; intros [|i] [|j] H; simpl; auto.
  contradiction.
Qed.

Lemma length_update_nth {A} (l : list A) (i : nat) (x : A) :
  List.length (update_nth i x l) = List.length l.
Proof. revert i. induction l as [|a l IH]; intros [|i]; simpl; auto. Qed.

Lemma serial_app (l1 l2 : list (nat * event)) : forall owner,
  serial owner (l1 ++ l2) = serial owner l1 && serial (owner_after owner l1) l2.
Proof.
  induction l1 as [|[i e] l1 IH]; intros owner; [reflexivity|].
  destruct e, owner; simpl; rewrite ?IH, ?andb_assoc; reflexivity.
Qed.

Lemma owner_after_app (l1 l2 : list (nat * event)) : forall owner,
  owner_after owner (l1 ++ l2) = owner_after (owner_after owner l1) l2.
Proof.
  induction l1 as [|[i e] l1 IH]; intros owner; [reflexivity|].
  simpl. apply IH.
Qed.

Lemma snoc_split {A} (l u v : list A) (x y : A) :
  l ++ [x] = u ++ y :: v ->
  (v = [] /\ u = l /\ y = x) \/ (exists v', v = v' ++ [x] /\ l = u ++ y :: v').
Proof.
  destruct v as [|z v] using rev_ind; intros H.
  - left. apply app_inj_tail in H as [-> ->]. auto.
  - right. clear IHv. exists v.
    change (u ++ y :: v ++ [z]) with (u ++ (y :: v) ++ [z]) in H.
    rewrite app_assoc in H. apply app_inj_tail in H as [-> ->]. auto.
Qed.

Lemma calls_of_snoc (p : event -> bool) (i j : nat) (e : event)
    (l : list (nat * event)) :
  calls_of p i (l ++ [(j, e)]) =
  calls_of p i l + (if (j =? i)%nat && p e then 1 else 0).
Proof.
  unfold calls_of. rewrite filter_app, length_app. simpl.
  now destruct ((j =? i)%nat && p e).
Qed.

Lemma move_not_from_done (p p' : pc) (e : event) :
  move p e p' -> is_done p = false.
Proof. now intros []. Qed.

(** A move takes the lock, gives it back, or is made inside the block. *)
Lemma move_kinds (p p' : pc) (e : event) :
  move p e p' ->
  (e = EvAcquire /\ p = AtLock /\ in_section p' = true) \/
  (e = EvRelease /\ in_section p = true /\ in_section p' = false) \/
  (in_section p = true /\ in_section p' = true /\
   serial (Some 0) [(0, e)] = true /\
   forall o, owner_after o [(0, e)] = o).
Proof.
  intros []; [left|right; right..|right; left]; repeat split; auto.
Qed.

Lemma serial_one (i : nat) (e : event) :
  serial (Some 0) [(0, e)] = true -> serial (Some i) [(i, e)] = true.
Proof. destruct e; simpl; rewrite ?Nat.eqb_refl; auto. Qed.

Lemma step_preserves_invariant (i : nat) (s s' : sys) :
  invariant s -> step i s = Some s' -> invariant s'.
Proof.
  intros Inv Hstep.
  destruct (step_cases _ _ Hstep)
    as (th & e & p' & Hth & Hmove & Hthreads & Hcalls & Hlock & Hacq).
  pose proof (inv_section Inv _ Hth) as Hsec.
  pose proof (move_not_from_done Hmove) as Hnotdone.
  assert (~ In (i, EvRelease) (calls s)) as Hnorel.
  { intros Hin. pose proof (inv_released Inv _ Hth Hin). congruence. }
  constructor.
  - (* serial *)
    rewrite Hcalls, serial_app, (inv_serial Inv), (inv_owner Inv). simpl andb.
    destruct (move_kinds Hmove) as [(-> & _ & _)|[(-> & Hp & _)|(Hp & _ & Hs & _)]].
    + rewrite (Hacq eq_refl). reflexivity.
    + rewrite (proj1 Hsec Hp). simpl. now rewrite Nat.eqb_refl.
    + rewrite (proj1 Hsec Hp). now apply serial_one.
  - (* owner *)
    rewrite Hcalls, owner_after_app, (inv_owner Inv), Hlock.
    reflexivity.
  - (* section *)
    intros j thj Hj. rewrite Hthreads in Hj. rewrite Hlock.
    destruct (Nat.eq_dec i j) as [<-|Hne].
    + rewrite (nth_error_update_nth_eq _ _ _ Hth) in Hj. injection Hj as <-. simpl.
      destruct (move_kinds Hmove)
        as [(-> & _ & Hp')|[(-> & _ & Hp')|(Hp & Hp' & _ & Ho)]].
      * now rewrite Hp'.
      * rewrite Hp'. split; discriminate.
      * rewrite Hp'. assert (lock s = Some i) as Hl by now apply Hsec.
        destruct e; try (split; auto; fail);
          specialize (Ho (Some 1)); discriminate.
    + rewrite nth_error_update_nth_ne in Hj by exact Hne.
      pose proof (inv_section Inv _ Hj) as Hsecj.
      destruct (move_kinds Hmove)
        as [(-> & _ & _)|[(-> & Hp & _)|(Hp & _ & _ & Ho)]].
      * rewrite (Hacq eq_refl) in Hsecj. split.
        -- intros H. apply Hsecj in H. discriminate.
        -- intros [= H]. contradiction.
      * rewrite (proj1 Hsec Hp) in Hsecj. split.
        -- intros H. apply Hsecj in H. injection H as H. contradiction.
        -- discriminate.
      * destruct e; try exact Hsecj; specialize (Ho (Some 1)); discriminate.
  - (* released *)
    intros j thj Hj Hin. rewrite Hthreads in Hj. rewrite Hcalls in Hin.
    apply in_app_or in Hin as [Hin|[[= <- ->]|[]]].
    + destruct (Nat.eq_dec i j) as [<-|Hne]; [contradiction|].
      rewrite nth_error_update_nth_ne in Hj by exact Hne.
      exact (inv_released Inv _ Hj Hin).
    + rewrite (nth_error_update_nth_eq _ _ _ Hth) in Hj. injection Hj as <-.
      now inversion Hmove.
  - (* silent *)
    intros u b e0 v Hsplit. rewrite Hcalls in Hsplit.
    apply snoc_split in Hsplit as [(_ & -> & [= -> ->])|(v' & _ & Hold)].
    + exact Hnorel.
    + exact (inv_silent Inv _ _ _ _ Hold).
  - (* starts *)
    intros j thj Hj. rewrite Hthreads in Hj. rewrite Hcalls, calls_of_snoc.
    destruct (Nat.eq_dec i j) as [<-|Hne].
    + rewrite (nth_error_update_nth_eq _ _ _ Hth) in Hj. injection Hj as <-.
      rewrite (inv_starts Inv _ Hth), Nat.eqb_refl.
      destruct Hmove; reflexivity.
    + rewrite nth_error_update_nth_ne in Hj by exact Hne.
      apply Nat.eqb_neq in Hne. rewrite Hne. simpl.
      rewrite Nat.add_0_r. exact (inv_starts Inv _ Hj).
  - (* stops *)
    intros j thj Hj. rewrite Hthreads in Hj. rewrite Hcalls, calls_of_snoc.
    destruct (Nat.eq_dec i j) as [<-|Hne].
    + rewrite (nth_error_update_nth_eq _ _ _ Hth) in Hj. injection Hj as <-.
      pose proof (inv_stops Inv _ Hth) as Hold. rewrite Nat.eqb_refl.
      destruct Hmove; simpl in *; try destruct r; simpl in *; lia.
    + rewrite nth_error_update_nth_ne in Hj by exact Hne.
      apply Nat.eqb_neq in Hne. rewrite Hne. simpl.
      rewrite Nat.add_0_r. exact (inv_stops Inv _ Hj).
  - (* bound *)
    intros x Hin. rewrite Hthreads, length_update_nth. rewrite Hcalls in Hin.
    apply in_app_or in Hin as [Hin|[<-|[]]].
    + exact (inv_bound Inv _ Hin).
    + simpl. apply nth_error_Some. congruence.
  - (* holder *)
    intros j Hj. rewrite Hthreads, length_update_nth. rewrite Hlock in Hj.
    assert (i < List.length (threads s)) as Hi
      by (apply nth_error_Some; congruence).
    destruct e; simpl in Hj; try (eapply inv_holder; eassumption);
      [injection Hj as <-; exact Hi | discriminate].
Qed.

Lemma init_invariant (requests : list (World * pyval)) : invariant (init requests).
Proof.
  assert (forall i th,
            nth_error (threads (init requests)) i = Some th -> th_pc th = AtLock)
    as Hpc.
  { intros i th H. apply nth_error_In in H. simpl in H.
    apply in_map_iff in H. destruct H as (r & Heq & _). now rewrite <- Heq. }
  constructor; simpl.
  - reflexivity.
  - reflexivity.
  - intros i th H. rewrite (Hpc _ _ H). simpl. split; discriminate.
  - intros i th H [].
  - intros u b e v H. now destruct u.
  - intros i th H. now rewrite (Hpc _ _ H).
  - intros i th H. now rewrite (Hpc _ _ H).
  - intros x [].
  - discriminate.
Qed.

Lemma run_preserves_invariant (schedule : list nat) : forall s,
  invariant s -> invariant (run schedule s).
Proof.
  induction schedule as [|i rest IH]; intros s Inv; [exact Inv|].
  simpl. apply IH. destruct (step i s) as [s'|] eqn:Hstep; [|exact Inv].
  eapply step_preserves_invariant; eassumption.
Qed.

Lemma step_length (i : nat) (s s' : sys) :
  step i s = Some s' -> List.length (threads s') = List.length (threads s).
Proof.
  intros H. destruct (step_cases _ _ H) as (th & e & p' & _ & _ & -> & _).
  apply length_update_nth.
Qed.

Lemma run_length (schedule : list nat) : forall s,
  List.length (threads (run schedule s)) = List.length (threads s).
Proof.
  induction schedule as [|i rest IH]; intros s; [reflexivity|]. simpl.
  rewrite IH. destruct (step i s) eqn:H; [now apply step_length in H|reflexivity].
Qed.

Lemma run_app (a b : list nat) : forall s, run (a ++ b) s = run b (run a s).
Proof. induction a as [|i a IH]; intros s; [reflexivity|]. simpl. apply IH. Qed.

(** While request [b] owns the lock and does not release it, every call is
    a call of [b]. *)
Lemma owned_calls (b : nat) (mid rest : list (nat * event)) :
  serial (Some b) (mid ++ rest) = true ->
  ~ In (b, EvRelease) mid ->
  forall a e, In (a, e) mid -> a = b.
Proof.
  induction mid as [|[i e0] mid IH]; intros Hser Hrel a e Hin; [destruct Hin|].
  assert (i = b /\ serial (Some b) (mid ++ rest) = true) as [-> Hser'].
  { destruct e0; simpl in Hser; try discriminate;
      apply andb_true_iff in Hser as [Hi Hser]; apply Nat.eqb_eq in Hi;
      subst i; try (split; [reflexivity|exact Hser]).
    exfalso. apply Hrel. now left. }
  destruct Hin as [[= <- _]|Hin]; [reflexivity|].
  apply (IH Hser') with (e := e); [|exact Hin].
  intros H. apply Hrel. now right.
Qed.

Lemma no_call_between_start_and_stop (s : sys) (t1 mid t2 : list (nat * event))
    (a b : nat) (lang : pyval) (e : event) :
  invariant s ->
  calls s = t1 ++ (b, EvStreamStart lang) :: mid ++ (b, EvStreamStop) :: t2 ->
  In (a, e) mid -> a = b.
Proof.
  intros Inv Hsplit Hin.
  pose proof (inv_serial Inv) as Hser. rewrite Hsplit, serial_app in Hser.
  apply andb_true_iff in Hser as [_ Hser].
  destruct (owner_after None t1) as [j|]; simpl in Hser; [|discriminate].
  apply andb_true_iff in Hser as [Hj Hser]. apply Nat.eqb_eq in Hj. subst j.
  eapply owned_calls; [exact Hser| |exact Hin].
  intros Hrel.
  apply (inv_silent Inv (t1 ++ (b, EvStreamStart lang) :: mid) b EvStreamStop t2).
  - rewrite Hsplit, <- app_assoc. reflexivity.
  - apply in_or_app. right. now right.
Qed.

(** Counting the calls of all requests is adding up the calls of each. *)
Lemma sum_indicator (j : nat) (b : bool) (n : nat) : forall a,
  a <= j < a + n ->
  list_sum (map (fun i => if (j =? i)%nat && b then 1 else 0) (seq a n))
    = if b then 1 else 0.
Proof.
  induction n as [|n IH]; intros a H; [lia|]. simpl.
  destruct (Nat.eq_dec j a) as [->|Hne].
  - rewrite Nat.eqb_refl. simpl.
    assert (list_sum (map (fun i => if (a =? i)%nat && b then 1 else 0)
                        (seq (S a) n)) = 0) as ->; [|destruct b; lia].
    clear. generalize (Nat.le_refl (S a)). generalize (S a) at 2 3 as c.
    induction n as [|n IH]; intros c Hc; [reflexivity|]. simpl.
    assert ((a =? c)%nat = false) as -> by (apply Nat.eqb_neq; lia).
    simpl. apply IH. lia.
  - assert ((j =? a)%nat = false) as -> by now apply Nat.eqb_neq.
    simpl. apply IH. lia.
Qed.

Lemma list_sum_map_add {A} (f g : A -> nat) (l : list A) :
  list_sum (map (fun x => f x + g x) l) = list_sum (map f l) + list_sum (map g l).
Proof. induction l as [|x l IH]; simpl; lia. Qed.

Lemma calls_in_all_sum (p : event -> bool) (n : nat) (l : list (nat * event)) :
  (forall x, In x l -> fst x < n) ->
  calls_in_all p l = list_sum (map (fun i => calls_of p i l) (seq 0 n)).
Proof.
  induction l as [|[j e] l IH]; intros Hb.
  - unfold calls_in_all, calls_of. simpl. induction (seq 0 n); simpl; auto.
  - assert (calls_in_all p ((j, e) :: l)
            = (if p e then 1 else 0) + calls_in_all p l) as ->.
    { unfold calls_in_all. simpl. now destruct (p e). }
    rewrite IH by (intros x Hx; apply Hb; now right).
    rewrite <- (@sum_indicator j (p e) n 0)
      by (specialize (Hb (j, e) (or_introl eq_refl)); simpl in Hb; lia).
    rewrite <- list_sum_map_add. f_equal. apply map_ext. intros i.
    unfold calls_of. simpl. now destruct ((j =? i)%nat && p e).
Qed.

Lemma list_sum_ones (n : nat) (f : nat -> nat) :
  (forall i, i < n -> f i = 1) -> list_sum (map f (seq 0 n)) = n.
Proof.
  intros H.
  assert (forall a m, (forall i, a <= i < a + m -> f i = 1) ->
                      list_sum (map f (seq a m)) = m) as Hgen.
  { intros a m. revert a. induction m as [|m IH]; intros a Hf; [reflexivity|].
    simpl. rewrite Hf by lia. rewrite IH; [reflexivity|]. intros i Hi. apply Hf. lia. }
  apply Hgen. intros i Hi. apply H. lia.
Qed.

Lemma all_returned_nth (s : sys) (i : nat) :
  all_returned s = true -> i < List.length (threads s) ->
  exists th v, nth_error (threads s) i = Some th /\ th_pc th = Done (Returns v).
Proof.
  unfold all_returned. intros Hall Hi.
  destruct (nth_error (threads s) i) as [th|] eqn:Hth;
    [|apply nth_error_None in Hth; lia].
  rewrite forallb_forall in Hall. specialize (Hall th (nth_error_In _ _ Hth)).
  destruct (th_pc th) as [| | | | | |[v|]] eqn:Hpc; try discriminate. eauto.
Qed.

(** The lock alone never stops the system: while a request is not past
    the block, some request can move. *)
Lemma some_request_can_move (s : sys) (i : nat) (th : thread) :
  invariant s ->
  nth_error (threads s) i = Some th -> is_done (th_pc th) = false ->
  exists j s', step j s = Some s'.
Proof.
  intros Inv Hth Hnd.
  assert (forall j thj,
            nth_error (threads s) j = Some thj -> lock s = Some j ->
            exists s', step j s = Some s') as Hholder.
  { intros j thj Hj Hl. pose proof (proj2 (inv_section Inv _ Hj) Hl) as Hsec.
    unfold step. rewrite Hj, Hl.
    destruct (th_pc thj); try discriminate; simpl; eauto. }
  destruct (lock s) as [j|] eqn:Hl.
  - pose proof (inv_holder Inv Hl) as Hj. apply nth_error_Some in Hj.
    destruct (nth_error (threads s) j) as [thj|] eqn:Ej; [|contradiction].
    destruct (Hholder j thj Ej eq_refl) as (s' & Hs'). eauto.
  - exists i. unfold step. rewrite Hth, Hl.
    pose proof (inv_section Inv _ Hth) as Hsec. rewrite Hl in Hsec.
    destruct (th_pc th); try discriminate; simpl; eauto;
      exfalso; assert (@None nat = Some i) by (now apply Hsec); discriminate.
Qed.

(** *** Concurrent requests: completion *)

Lemma step_next (i : nat) (s s' : sys) :
  step i s = Some s' ->
  exists th e p',
    nth_error (threads s) i = Some th /\
    next_pc (th_world th) (th_lang th) (map snd (calls s)) (th_pc th)
      = Some (e, p') /\
    threads s' = update_nth i (mkThread (th_world th) (th_lang th) p') (threads s) /\
    calls s' = calls s ++ [(i, e)].
Proof.
  unfold step. destruct (nth_error (threads s) i) as [th|] eqn:Hth; [|discriminate].
  destruct (next_pc _ _ _ _) as [[e p']|] eqn:Hnext; [|discriminate].
  intros H. exists th, e, p'.
  destruct e; destruct (lock s); try discriminate; injection H as <-; auto.
Qed.

Lemma reads_in_cycle_snoc (t : trace) (e : event) :
  reads_in_cycle (t ++ [e]) =
  match e with
  | EvStreamStart _ => 0
  | EvRead _ => S (reads_in_cycle t)
  | _ => reads_in_cycle t
  end.
Proof. unfold reads_in_cycle. now rewrite fold_left_app. Qed.

Lemma list_sum_update_lt {A} (f g : A -> nat) (l : list A) : forall i x x',
  nth_error l i = Some x ->
  g x' < f x ->
  (forall j y, j <> i -> nth_error l j = Some y -> g y = f y) ->
  list_sum (map g (update_nth i x' l)) < list_sum (map f l).
Proof.
  induction l as [|a l IH]; intros [|i] x x' Hx Hlt Hother; try discriminate.
  - simpl in *. injection Hx as ->.
    assert (list_sum (map g l) = list_sum (map f l)) as ->; [|lia].
    f_equal. apply map_ext_in. intros y Hy.
    apply In_nth_error in Hy as (j & Hj). now apply (Hother (S j)).
  - simpl in *. rewrite (Hother 0 a) by (discriminate || reflexivity).
    apply Nat.add_lt_mono_l. apply (IH i x x' Hx Hlt).
    intros j y Hj Hy. apply (Hother (S j)); [lia|exact Hy].
Qed.

(** Under cooperative collaborators a step brings the system closer to
    the end, and no request fails. *)
Lemma step_decreases (K i : nat) (s s' : sys) :
  invariant s -> all_cooperative K s -> all_unfailed s ->
  step i s = Some s' ->
  measure K s' < measure K s /\ all_cooperative K s' /\ all_unfailed s'.
Proof.
  intros Inv Hcoop Hok Hstep.
  destruct (step_cases _ _ Hstep)
    as (th & e0 & p0 & Hth0 & Hmove & _ & _ & _ & Hacq).
  destruct (step_next _ _ Hstep) as (th' & e & p' & Hth & Hnext & Hthreads & Hcalls).
  assert (th' = th) as -> by congruence.
  pose proof (Hcoop _ _ Hth) as C.
  set (h := map snd (calls s)) in *.
  set (r := reads_in_cycle h).
  assert (reads_in_cycle (map snd (calls s')) = reads_in_cycle (h ++ [e])) as Hr'
    by (rewrite Hcalls, map_app; reflexivity).
  assert (rank K (reads_in_cycle (h ++ [e])) p' < rank K r (th_pc th)
          /\ unfailed p' = true) as [Hrank Hp'ok].
  { pose proof (Hok _ _ Hth) as Hpok.
    rewrite reads_in_cycle_snoc. fold r.
    destruct (th_pc th) as [| | |data| |res|res]; simpl in Hnext;
      try discriminate; injection Hnext as <- <-; simpl.
    - split; [lia|reflexivity].
    - rewrite (coop_start C). simpl. split; [lia|reflexivity].
    - destruct (stream_read (th_world th) h 1024) as [data|x] eqn:Hread.
      + simpl. split; [|reflexivity].
        destruct (le_lt_dec K r) as [Hle|Hlt]; [|lia].
        destruct (coop_end C h Hle) as (x & Hx). congruence.
      + unfold after_raise. rewrite (coop_read C _ Hread). simpl.
        split; [lia|reflexivity].
    - rewrite (coop_data C). simpl. split; [lia|reflexivity].
    - destruct (coop_stop C h) as (v & ->). simpl. split; [lia|reflexivity].
    - split; [lia|]. now destruct res. }
  assert (forall j thj, j <> i -> nth_error (threads s) j = Some thj ->
                        in_section (th_pc thj) = false) as Hout.
  { intros j thj Hne Hj.
    destruct (in_section (th_pc thj)) eqn:Hsec; [|reflexivity].
    apply (inv_section Inv _ Hj) in Hsec.
    destruct (move_kinds Hmove) as [(-> & _ & _)|[(_ & Hp & _)|(Hp & _)]].
    - rewrite (Hacq eq_refl) in Hsec. discriminate.
    - apply (inv_section Inv _ Hth0) in Hp. congruence.
    - apply (inv_section Inv _ Hth0) in Hp. congruence. }
  split; [|split].
  - unfold measure. rewrite Hr', Hthreads. fold h. fold r.
    apply list_sum_update_lt with (x := th); [exact Hth|exact Hrank|].
    intros j thj Hne Hj. specialize (Hout j thj Hne Hj).
    destruct (th_pc thj); try discriminate; reflexivity.
  - intros j thj Hj. rewrite Hthreads in Hj.
    destruct (Nat.eq_dec i j) as [<-|Hne].
    + rewrite (nth_error_update_nth_eq _ _ _ Hth) in Hj. injection Hj as <-. exact C.
    + rewrite nth_error_update_nth_ne in Hj by exact Hne. exact (Hcoop _ _ Hj).
  - intros j thj Hj. rewrite Hthreads in Hj.
    destruct (Nat.eq_dec i j) as [<-|Hne].
    + rewrite (nth_error_update_nth_eq _ _ _ Hth) in Hj. injection Hj as <-.
      exact Hp'ok.
    + rewrite nth_error_update_nth_ne in Hj by exact Hne. exact (Hok _ _ Hj).
Qed.

Lemma unfinished_or_returned (s : sys) :
  all_unfailed s ->
  all_returned s = true \/
  exists i th, nth_error (threads s) i = Some th /\ is_done (th_pc th) = false.
Proof.
  unfold all_unfailed, all_returned. intros Hok.
  induction (threads s) as [|th l IH]; [now left|].
  assert (forall i th0, nth_error l i = Some th0 -> unfailed (th_pc th0) = true)
    as Hl by (intros i th0 H; exact (Hok (S i) th0 H)).
  specialize (Hok 0 th eq_refl).
  destruct (is_done (th_pc th)) eqn:Hd.
  - destruct (IH Hl) as [Hall|(i & th0 & Hi & Hnd)].
    + left. simpl. rewrite Hall.
      destruct (th_pc th) as [| | | | | |[v|x]]; try discriminate; reflexivity.
    + right. exists (S i), th0. auto.
  - right. exists 0, th. auto.
Qed.

(** From any state of a run, under cooperative collaborators, some
    schedule brings every request to its transcript list. *)
Lemma can_complete (K : nat) : forall n s,
  measure K s <= n ->
  invariant s -> all_cooperative K s -> all_unfailed s ->
  exists schedule, all_returned (run schedule s) = true.
Proof.
  induction n as [|n IH]; intros s Hm Inv Hcoop Hok;
    (destruct (@unfinished_or_returned s Hok) as [Hall|(i & th & Hth & Hnd)];
     [now exists []|]);
    destruct (@some_request_can_move s i th Inv Hth Hnd) as (j & s' & Hstep);
    destruct (@step_decreases K j s s' Inv Hcoop Hok Hstep)
      as (Hlt & Hcoop' & Hok').
  - lia.
  - destruct (IH s') as (schedule & Hdone); auto.
    + lia.
    + eapply step_preserves_invariant; eassumption.
    + exists (j :: schedule). simpl. now rewrite Hstep.
Qed.

Lemma run_stays_unfailed (K : nat) (schedule : list nat) : forall s,
  invariant s -> all_cooperative K s -> all_unfailed s ->
  all_cooperative K (run schedule s) /\ all_unfailed (run schedule s).
Proof.
  induction schedule as [|i rest IH]; intros s Inv Hcoop Hok; [now split|].
  simpl. destruct (step i s) as [s'|] eqn:Hstep; [|now apply IH].
  destruct (@step_decreases K i s s' Inv Hcoop Hok Hstep) as (_ & Hcoop' & Hok').
  apply IH; auto. eapply step_preserves_invariant; eassumption.
Qed.

Lemma init_cooperative (K : nat) (requests : list (World * pyval)) :
  (forall r, In r requests -> cooperative K (fst r)) ->
  all_cooperative K (init requests) /\ all_unfailed (init requests).
Proof.
  intros H. split; intros i th Hth; apply nth_error_In in Hth; simpl in Hth;
    apply in_map_iff in Hth; destruct Hth as (r & Heq & Hr); rewrite <- Heq.
  - exact (H r Hr).
  - reflexivity.
Qed.

Lemma studio_cooperative (api : bool) (flag : pyval) (files ack extractor : bool)
    (chunks K : nat) :
  chunks <= K -> cooperative K (studio api flag files ack extractor chunks).
Proof.
  intros Hle. constructor; simpl; try reflexivity.
  - eauto.
  - intros h e. destruct (reads_in_cycle h <? chunks)%nat; [discriminate|].
    now intros [= <-].
  - intros h Hk.
    assert ((reads_in_cycle h <? chunks)%nat = false) as ->
      by (apply Nat.ltb_ge; lia).
    eauto.
Qed.

(** C1, as amended (the [N] cycles are those of [N] requests that have
    returned): under any schedule of [N] requests on the streaming
    engine, (1) the calls are serial: every [stream_start], [read],
    [stream_data] and [stream_stop] is made by the request that holds the
    lock, between its acquisition and its release; (2) no call of a
    request falls between the [stream_start] and the [stream_stop] of
    another; (3) once the [N] requests have returned their transcript
    lists, each has made exactly one [stream_start] and one
    [stream_stop], [N] of each in all; (4) when the engine answers and
    the file streams end, the schedule can be continued until the [N]
    requests have returned. *)
Theorem streaming_cycles_are_serialized (requests : list (World * pyval))
    (schedule : list nat) :
  let s := run schedule (init requests) in
  let n := List.length requests in
  serial None (calls s) = true /\
  (forall t1 mid t2 a b lang e,
     calls s = t1 ++ (b, EvStreamStart lang) :: mid ++ (b, EvStreamStop) :: t2 ->
     In (a, e) mid -> a = b) /\
  (all_returned s = true ->
     calls_in_all is_start (calls s) = n /\
     calls_in_all is_stop (calls s) = n /\
     forall i, i < n ->
       calls_of is_start i (calls s) = 1 /\ calls_of is_stop i (calls s) = 1) /\
  (forall K,
     (forall r, In r requests -> cooperative K (fst r)) ->
     exists more, all_returned (run (schedule ++ more) (init requests)) = true).
Proof.
  intros s n.
  assert (invariant s) as Inv
    by (apply run_preserves_invariant, init_invariant).
  assert (List.length (threads s) = n) as Hlen.
  { unfold s. rewrite run_length. unfold init. simpl. apply length_map. }
  split; [exact (inv_serial Inv)|]. split; [|split].
  - intros t1 mid t2 a b lang e Hsplit Hin.
    eapply no_call_between_start_and_stop; eassumption.
  - intros Hall.
    assert (forall i, i < n ->
              calls_of is_start i (calls s) = 1 /\
              calls_of is_stop i (calls s) = 1) as Heach.
    { intros i Hi. rewrite <- Hlen in Hi.
      destruct (all_returned_nth s Hall Hi) as (th & v & Hth & Hpc).
      pose proof (inv_starts Inv _ Hth) as H1.
      pose proof (inv_stops Inv _ Hth) as H2.
      rewrite Hpc in H1, H2. simpl in H1, H2. auto. }
    split; [|split; [|exact Heach]].
    + rewrite (@calls_in_all_sum is_start n)
        by (intros x Hx; rewrite <- Hlen; exact (inv_bound Inv _ Hx)).
      apply list_sum_ones. intros i Hi. apply (Heach i Hi).
    + rewrite (@calls_in_all_sum is_stop n)
        by (intros x Hx; rewrite <- Hlen; exact (inv_bound Inv _ Hx)).
      apply list_sum_ones. intros i Hi. apply (Heach i Hi).
  - intros K Hcoop.
    destruct (@init_cooperative K requests Hcoop) as (Hc0 & Hu0).
    destruct (@run_stays_unfailed K schedule (init requests)
                (init_invariant requests) Hc0 Hu0) as (Hc & Hu).
    destruct (@can_complete K (measure K s) s (Nat.le_refl _) Inv Hc Hu)
      as (more & Hmore).
    exists more. now rewrite run_app.
Qed.

Lemma streaming_cycles_are_serialized_witness :
  let s := run alternating (init two_requests) in
  all_returned s = true /\
  calls_in_all is_start (calls s) = 2 /\
  calls_in_all is_stop (calls s) = 2 /\
  (forall a e,
     In (a, e) [(1, EvRead 1024); (1, EvStreamData (PObj "chunk"));
                (1, EvRead 1024); (1, EvStreamData (PObj "chunk"));
                (1, EvRead 1024); (1, EvStreamData (PObj "chunk"));
                (1, EvRead 1024)] -> a = 1) /\
  exists more, all_returned (run ([1; 0; 1] ++ more) (init two_requests)) = true.
Proof.
  intros s.
  destruct (streaming_cycles_are_serialized two_requests alternating)
    as (_ & Hbetween & Hcount & _).
  split; [reflexivity|].
  destruct (Hcount eq_refl) as (Hstart & Hstop & _).
  split; [exact Hstart|]. split; [exact Hstop|]. split.
  - intros a e.
    apply (Hbetween [(1, EvAcquire)]
             [(1, EvRead 1024); (1, EvStreamData (PObj "chunk"));
              (1, EvRead 1024); (1, EvStreamData (PObj "chunk"));
              (1, EvRead 1024); (1, EvStreamData (PObj "chunk"));
              (1, EvRead 1024)]
             [(1, EvRelease); (0, EvAcquire); (0, EvStreamStart (PStr "en-us"));
              (0, EvRead 1024); (0, EvStreamData (PObj "chunk"));
              (0, EvRead 1024); (0, EvStreamStop); (0, EvRelease)]
             a 1 (PStr "de-de") e).
    reflexivity.
  - destruct (streaming_cycles_are_serialized two_requests [1; 0; 1])
      as (_ & _ & _ & Hmore).
    apply (Hmore 3). intros r [<-|[<-|[]]]; apply studio_cooperative; lia.
Defined.

(** C1 as stated fails: of two requests, the first reads from a stream
    that raises an exception other than [EOFError].  Both requests come
    to their end and neither can move any more, two streams have been
    started, and one only has been stopped: two requests, one complete
    cycle. *)
Lemma failed_read_leaves_cycle_open :
  let s := run one_after_the_other (init one_broken_request) in
  map (fun th => is_done (th_pc th)) (threads s) = [true; true] /\
  step 0 s = None /\ step 1 s = None /\
  calls_in_all is_start (calls s) = 2 /\
  calls_in_all is_stop (calls s) = 1 /\
  calls_of is_start 0 (calls s) = 1 /\
  calls_of is_stop 0 (calls s) = 0.
Proof. repeat split. Qed.

(** *** A request alone makes the calls of the sequential block *)

Lemma map_snd_tag (i : nat) (t : trace) : map snd (tag i t) = t.
Proof.
  unfold tag. rewrite map_map. simpl. apply map_id.
Qed.

Lemma tag_snoc (i : nat) (t : trace) (e : event) :
  tag i t ++ [(i, e)] = tag i (t ++ [e]).
Proof. unfold tag. now rewrite map_app. Qed.

Lemma run_repeat_add (j k : nat) (s : sys) :
  run (repeat 0 (j + k)) s = run (repeat 0 k) (run (repeat 0 j) s).
Proof. now rewrite repeat_app, run_app. Qed.

Lemma run_cons_step (i : nat) (rest : list nat) (s s' : sys) :
  step i s = Some s' -> run (i :: rest) s = run rest s'.
Proof. intros H. simpl. now rewrite H. Qed.

Lemma step_alone_inside (w : World) (lang : pyval) (p p' : pc) (e : event)
    (t : trace) :
  next_pc w lang t p = Some (e, p') ->
  in_section p = true -> in_section p' = true ->
  step 0 (alone w lang true p t) = Some (alone w lang true p' (t ++ [e])).
Proof.
  intros Hnext Hp Hp'. unfold step, alone. simpl. rewrite map_snd_tag, Hnext.
  rewrite <- tag_snoc.
  destruct p; try discriminate; simpl in Hnext; injection Hnext as <- <-;
    try reflexivity.
  discriminate.
Qed.

Lemma step_alone_acquire (w : World) (lang : pyval) (t : trace) :
  step 0 (alone w lang false AtLock t)
  = Some (alone w lang true AtStart (t ++ [EvAcquire])).
Proof. unfold step, alone. simpl. now rewrite <- tag_snoc. Qed.

Lemma step_alone_release (w : World) (lang : pyval) (r : result pyval)
    (t : trace) :
  step 0 (alone w lang true (AtExit r) t)
  = Some (alone w lang false (Done r) (t ++ [EvRelease])).
Proof. unfold step, alone. simpl. now rewrite <- tag_snoc. Qed.

(** One turn of the schedule [0; 0; ...] on a request alone. *)
Ltac alone_turn :=
  cbn [repeat Nat.add];
  erewrite run_cons_step;
  [| first
       [ apply step_alone_acquire
       | apply step_alone_release
       | eapply step_alone_inside;
         [ simpl; unfold after_raise;
           repeat match goal with
                  | H : ?l = _ |- context [?l] => rewrite H
                  end;
           reflexivity
         | reflexivity
         | reflexivity ] ] ].

Lemma feed_loop_alone (w : World) (lang : pyval) (fuel : nat) : forall t,
  match feed_loop w fuel t with
  | (Ok _, t') =>
      exists k, run (repeat 0 k) (alone w lang true AtRead t)
                = alone w lang true AtStop t'
  | (Raise e, t') =>
      exists k, run (repeat 0 k) (alone w lang true AtRead t)
                = alone w lang true (AtExit (Raises e)) t'
  | (OutOfFuel, _) => True
  end.
Proof.
  induction fuel as [|fuel IH]; intros t; [exact I|].
  simpl. unfold feed_step. unfold_monad.
  destruct (stream_read w t 1024) as [data|x] eqn:Hread.
  - destruct (stream_data w (t ++ [EvRead 1024]) data) as [[]|x] eqn:Hfeed.
    + specialize (IH ((t ++ [EvRead 1024]) ++ [EvStreamData data])).
      destruct (feed_loop w fuel _) as [[[]|e|] t']; [| |exact I];
        destruct IH as (k & Hk); exists (2 + k);
        do 2 alone_turn; exact Hk.
    + destruct (is_EOFError x) eqn:Heof; exists 2; do 2 alone_turn; reflexivity.
  - destruct (is_EOFError x) eqn:Heof; exists 1; alone_turn; reflexivity.
Qed.

(** Scheduled alone, a request makes the calls of
    [with lock: stream_start; feed loop; stream_stop], in the same order
    and with the same outcome. *)
Lemma alone_refines (w : World) (lang : pyval) (fuel : nat) (t : trace) :
  match with_lock (stream_cycle w fuel lang) t with
  | (Ok transcriptions, t') =>
      exists k, run (repeat 0 k) (alone w lang false AtLock t)
                = alone w lang false (Done (Returns transcriptions)) t'
  | (Raise e, t') =>
      exists k, run (repeat 0 k) (alone w lang false AtLock t)
                = alone w lang false (Done (Raises e)) t'
  | (OutOfFuel, _) => True
  end.
Proof.
  unfold with_lock, stream_cycle. unfold_monad.
  destruct (stream_start w (t ++ [EvAcquire]) lang) as [[]|x] eqn:Hstart.
  - pose proof (feed_loop_alone w lang fuel
                  ((t ++ [EvAcquire]) ++ [EvStreamStart lang])) as Hloop.
    destruct (feed_loop w fuel _) as [[[]|e|] t1]; [| |exact I];
      destruct Hloop as (k & Hk).
    + destruct (stream_stop w t1) as [v|x] eqn:Hstop;
        exists (2 + (k + 2)); do 2 alone_turn;
        rewrite run_repeat_add, Hk; do 2 alone_turn; reflexivity.
    + exists (2 + (k + 1)). do 2 alone_turn.
      rewrite run_repeat_add, Hk. alone_turn. reflexivity.
  - exists 3. do 3 alone_turn. reflexivity.
Qed.

(* ------------------------------------------------------------------ *)
(** ** Further properties of the module                                 *)
(* ------------------------------------------------------------------ *)

Lemma count_app (p : event -> bool) (t d : trace) :
  count p (t ++ d) = count p t + count p d.
Proof. unfold count. now rewrite filter_app, length_app. Qed.

Lemma count_none (P Q : event -> bool) (d : trace) :
  forallb P d = true -> (forall e, P e = true -> Q e = false) -> count Q d = 0.
Proof.
  intros Pd HPQ. induction d as [|e d IH]; [reflexivity|]. simpl in Pd.
  apply andb_true_iff in Pd as [Pe Pd]. unfold count in *. simpl.
  now rewrite (HPQ e Pe), IH.
Qed.

Lemma count_cons (p : event -> bool) (e : event) (t : trace) :
  count p (e :: t) = (if p e then 1 else 0) + count p t.
Proof. unfold count. simpl. now destruct (p e). Qed.

Lemma count_nil (p : event -> bool) : count p [] = 0.
Proof. reflexivity. Qed.

(** Counting events of a kind in a trace with a known tail. *)
Ltac count_events :=
  simpl fst; simpl snd;
  rewrite <- ?app_assoc;
  rewrite ?count_app, ?count_cons, ?count_nil;
  cbn [is_emit is_publish is_stream_stop is_nick_profiles is_log].

(** *** The block under the lock *)

Section Cycle.

Variable w : World.

Lemma feed_step_calls (P : event -> bool) :
  (forall n, P (EvRead n) = true) -> (forall c, P (EvStreamData c) = true) ->
  only P (feed_step w).
Proof.
  intros Hr Hd. unfold feed_step. apply only_try_except.
  - apply only_bind; [now apply only_call|]. intros data.
    apply only_bind; [now apply only_call|]. intros _. apply only_ret.
  - intros _. apply only_ret.
Qed.

Lemma feed_loop_calls (P : event -> bool) (fuel : nat) :
  (forall n, P (EvRead n) = true) -> (forall c, P (EvStreamData c) = true) ->
  only P (feed_loop w fuel).
Proof.
  intros Hr Hd. induction fuel as [|fuel IH]; simpl; [apply only_out_of_fuel|].
  apply only_bind; [now apply feed_step_calls|].
  intros [|]; [exact IH|apply only_ret].
Qed.

Lemma stream_cycle_calls (fuel : nat) (lang : pyval) :
  only is_cycle_call (stream_cycle w fuel lang).
Proof.
  unfold stream_cycle.
  apply only_bind; [now apply only_call|]. intros _.
  apply only_bind; [now apply feed_loop_calls|]. intros _.
  now apply only_call.
Qed.

Lemma fed_calls (k : nat) : forall t tk,
  fed w k t = Some tk ->
  exists d, tk = t ++ d /\ forallb is_feed_call d = true.
Proof.
  induction k as [|k IH]; intros t tk H; simpl in H.
  - injection H as <-. exists []. now rewrite app_nil_r.
  - destruct (feed_step_calls is_feed_call (fun _ => eq_refl) (fun _ => eq_refl) t)
      as (d1 & Hd1 & Pd1).
    destruct (feed_step w t) as [[[|]|e|] t1]; try discriminate.
    simpl in Hd1. subst t1.
    destruct (IH _ _ H) as (d2 & -> & Pd2).
    exists (d1 ++ d2). now rewrite app_assoc, forallb_app, Pd1, Pd2.
Qed.

Lemma feed_failure_raises (t t' : trace) (e : exn) :
  feed_failure w t e t' -> feed_step w t = (Raise e, t').
Proof.
  intros [Hr He | c Hr Hd He]; unfold feed_step; unfold_monad.
  - now rewrite Hr, He.
  - rewrite Hr. cbv beta iota. rewrite Hd, He. now rewrite <- app_assoc.
Qed.

Lemma feed_loop_fails (k : nat) : forall (t tk tb : trace) (e : exn) (fuel : nat),
  fed w k t = Some tk ->
  feed_step w tk = (Raise e, tb) ->
  k < fuel ->
  feed_loop w fuel t = (Raise e, tb).
Proof.
  induction k as [|k IH]; intros t tk tb e fuel Hfed Hbrk Hlt;
    (destruct fuel as [|fuel]; [lia|]); simpl in *.
  - injection Hfed as <-. unfold bind. now rewrite Hbrk.
  - unfold bind. destruct (feed_step w t) as [[[|]|x|] t1]; try discriminate.
    apply (IH t1 tk tb e fuel Hfed Hbrk). lia.
Qed.

End Cycle.

(** X1: whenever the block under [with lock:] is left, by a return or by
    an exception, the lock has been released: the calls of the block are
    the acquisition, calls on the stream and the engine only, and the
    release last. *)
Theorem lock_is_released_on_every_exit (w : World) (fuel : nat) (lang : pyval)
    (t : trace) :
  fst (with_lock (stream_cycle w fuel lang) t) <> OutOfFuel ->
  exists d,
    snd (with_lock (stream_cycle w fuel lang) t) = t ++ EvAcquire :: d ++ [EvRelease]
    /\ forallb is_cycle_call d = true.
Proof.
  unfold with_lock, bind, tell.
  destruct (stream_cycle_calls w fuel lang (t ++ [EvAcquire])) as (d & Hd & Pd).
  destruct (stream_cycle w fuel lang (t ++ [EvAcquire])) as [[v|e|] t'];
    simpl in *; subst t'; intros H; try contradiction;
    exists d; (split; [|exact Pd]); now rewrite <- !app_assoc.
Qed.

Lemma lock_is_released_on_every_exit_witness :
  exists d,
    snd (with_lock (stream_cycle broken_studio 1 (PStr "en-us")) []) =
      [] ++ EvAcquire :: d ++ [EvRelease]
    /\ forallb is_cycle_call d = true.
Proof.
  apply (@lock_is_released_on_every_exit broken_studio 1 (PStr "en-us") []).
  discriminate.
Defined.

(** X2: an exception other than [EOFError], raised by the read or by the
    feed after [k] chunks, leaves the loop and the block at once: the
    lock is released, the exception is raised to the caller, and
    [stream_stop] is not called for the stream that was started. *)
Theorem failed_feed_skips_stream_stop (w : World) (fuel k : nat) (lang : pyval)
    (e : exn) (t tk tb : trace) :
  stream_start w (t ++ [EvAcquire]) lang = Returns tt ->
  fed w k (t ++ [EvAcquire; EvStreamStart lang]) = Some tk ->
  feed_failure w tk e tb ->
  k < fuel ->
  with_lock (stream_cycle w fuel lang) t = (Raise e, tb ++ [EvRelease]) /\
  count is_stream_stop (tb ++ [EvRelease]) = count is_stream_stop t.
Proof.
  intros Hstart Hfed Hfail Hlt. split.
  - apply feed_failure_raises in Hfail.
    unfold with_lock, stream_cycle. unfold_monad. rewrite Hstart. cbv beta iota.
    rewrite <- app_assoc. simpl app.
    erewrite feed_loop_fails; [reflexivity|exact Hfed|exact Hfail|exact Hlt].
  - destruct (fed_calls w k _ Hfed) as (d & -> & Pd).
    assert (count is_stream_stop d = 0) as Hd
      by (apply count_none with (P := is_feed_call); [exact Pd|now intros []]).
    destruct Hfail; rewrite !count_app, Hd; unfold count; simpl; lia.
Qed.

Lemma failed_feed_skips_stream_stop_witness :
  with_lock (stream_cycle broken_studio 1 (PStr "en-us")) [] =
    (Raise broken_stream,
     ([EvAcquire; EvStreamStart (PStr "en-us")] ++ [EvRead 1024]) ++ [EvRelease]) /\
  count is_stream_stop
    (([EvAcquire; EvStreamStart (PStr "en-us")] ++ [EvRead 1024]) ++ [EvRelease])
  = count is_stream_stop [].
Proof.
  apply (@failed_feed_skips_stream_stop broken_studio 1 0 (PStr "en-us")
           broken_stream [] [EvAcquire; EvStreamStart (PStr "en-us")]).
  - reflexivity.
  - reflexivity.
  - apply (@failure_on_read broken_studio
             [EvAcquire; EvStreamStart (PStr "en-us")] broken_stream);
      reflexivity.
  - lia.
Defined.

(** X3: the feed loop feeds what it reads and ends only on an exception.
    A run that ends is made of full turns (a read that returns a chunk,
    then [stream_data] on this very chunk, which returns) closed by the
    one call that raised: a read, or the feed of the chunk just read.  It
    returns when that exception is an [EOFError] and raises it otherwise.
    A run cut short after [fuel] turns is made of [fuel] full turns.
    Conversely, calls of this shape are the run of the loop. *)
Theorem feed_loop_feeds_what_it_reads (w : World) (fuel : nat) : forall t,
  match feed_loop w fuel t with
  | (Ok _, t') =>
      exists d e, t' = t ++ d /\ feeds w t d e /\ is_EOFError e = true
  | (Raise e, t') =>
      exists d, t' = t ++ d /\ feeds w t d e /\ is_EOFError e = false
  | (OutOfFuel, t') =>
      exists d, t' = t ++ d /\ full_turns w t d /\ List.length d = 2 * fuel
  end /\
  (forall d e,
      feeds w t d e -> List.length d <= 2 * fuel ->
      feed_loop w fuel t =
        (if is_EOFError e then Ok tt else Raise e, t ++ d)).
Proof.
  induction fuel as [|fuel IH]; intros t.
  - split.
    + exists []. simpl. rewrite app_nil_r. repeat split. constructor.
    + intros d e Hfeeds Hlen. inversion Hfeeds; subst; simpl in Hlen; lia.
  - split.
    + simpl. unfold feed_step. unfold_monad.
      destruct (stream_read w t 1024) as [chunk|x] eqn:Hread.
      * destruct (stream_data w (t ++ [EvRead 1024]) chunk) as [[]|x] eqn:Hfeed.
        -- destruct (IH ((t ++ [EvRead 1024]) ++ [EvStreamData chunk]))
             as [Hrun _].
           rewrite <- app_assoc in Hrun. simpl app in Hrun.
           rewrite <- app_assoc. simpl app.
           destruct (feed_loop w fuel _) as [[[]|e|] t'].
           ++ destruct Hrun as (d & e & -> & Hfeeds & He).
              exists (EvRead 1024 :: EvStreamData chunk :: d), e.
              split; [now rewrite <- app_assoc|].
              split; [now constructor|exact He].
           ++ destruct Hrun as (d & -> & Hfeeds & He).
              exists (EvRead 1024 :: EvStreamData chunk :: d).
              split; [now rewrite <- app_assoc|].
              split; [now constructor|exact He].
           ++ destruct Hrun as (d & -> & Hturns & Hlen).
              exists (EvRead 1024 :: EvStreamData chunk :: d).
              split; [now rewrite <- app_assoc|].
              split; [now constructor|simpl; lia].
        -- destruct (is_EOFError x) eqn:He; simpl.
           ++ exists [EvRead 1024; EvStreamData chunk], x.
              split; [now rewrite <- app_assoc|].
              split; [now constructor|exact He].
           ++ exists [EvRead 1024; EvStreamData chunk].
              split; [now rewrite <- app_assoc|].
              split; [now constructor|exact He].
      * destruct (is_EOFError x) eqn:He; simpl.
        -- exists [EvRead 1024], x. repeat split; [now constructor|exact He].
        -- exists [EvRead 1024]. repeat split; [now constructor|exact He].
    + intros d e Hfeeds Hlen. simpl. unfold feed_step. unfold_monad.
      inversion Hfeeds as [t0 e0 Hread|t0 chunk e0 Hread Hfeed
                          |t0 chunk d0 e0 Hread Hfeed Hrest]; subst.
      * rewrite Hread. now destruct (is_EOFError e).
      * rewrite Hread, Hfeed. rewrite <- app_assoc.
        now destruct (is_EOFError e).
      * rewrite Hread, Hfeed.
        destruct (IH ((t ++ [EvRead 1024]) ++ [EvStreamData chunk]))
          as [_ Hback].
        rewrite <- app_assoc in Hback. simpl app in Hback.
        rewrite <- app_assoc. simpl app.
        rewrite (Hback d0 e Hrest) by (simpl in Hlen; lia).
        now rewrite <- app_assoc.
Qed.

(** X4: with a batch engine [_get_stt_from_file] takes no lock and
    touches no stream: it decodes, transcribes and extracts the context,
    each at most once, and always comes back. *)
Theorem batch_engine_takes_no_lock (w : World) (fuel : nat) (wav_file : pyval)
    (lang : option pyval) (t : trace) :
  API_STT w = false ->
  exists d,
    snd (_get_stt_from_file w fuel wav_file lang t) = t ++ d /\
    forallb is_batch_call d = true /\
    List.length d <= 3 /\
    fst (_get_stt_from_file w fuel wav_file lang t) <> OutOfFuel.
Proof.
  intros Hapi. unfold _get_stt_from_file, stt_transcriptions. rewrite Hapi.
  unfold_monad.
  destruct (decode w t wav_file) as [audio|e].
  - destruct (transcribe w _ audio _) as [tr|e].
    + destruct (get_context w _ audio) as [[a c]|e]; eexists;
        rewrite <- !app_assoc; simpl;
        (split; [reflexivity|]); (split; [|split]);
        first [reflexivity | simpl; lia | discriminate].
    + eexists. rewrite <- !app_assoc. simpl.
      (split; [reflexivity|]); (split; [|split]);
        first [reflexivity | simpl; lia | discriminate].
  - eexists. simpl. (split; [reflexivity|]); (split; [|split]);
      first [reflexivity | simpl; lia | discriminate].
Qed.

Lemma batch_engine_takes_no_lock_witness :
  exists d,
    snd (_get_stt_from_file deaf_studio 0 (PStr "shout.wav") None []) = [] ++ d /\
    forallb is_batch_call d = true /\
    List.length d <= 3 /\
    fst (_get_stt_from_file deaf_studio 0 (PStr "shout.wav") None []) <> OutOfFuel.
Proof.
  apply (@batch_engine_takes_no_lock deaf_studio 0 (PStr "shout.wav") None []).
  reflexivity.
Defined.

(** *** The query form *)

Lemma is_stt_not_emit (e : event) : is_stt e = true -> is_emit e = false.
Proof. now destruct e. Qed.

Lemma get_stt_reply_once (w : World) (fuel : nat) (m : bus_message)
    (ident wav_file lang : pyval) (t : trace) :
  match get_stt_reply w fuel m ident wav_file lang t with
  | (Ok _, t') =>
      count is_emit t' = S (count is_emit t) /\
      count is_publish t' = count is_publish t
  | (Raise e, _) => is_Exception e = false
  | (OutOfFuel, _) => True
  end.
Proof.
  pose proof (only_count is_emit t
                (only_get_stt_from_file w fuel wav_file (Some lang))
                is_stt_not_emit) as Hemit.
  pose proof (only_count is_publish t
                (only_get_stt_from_file w fuel wav_file (Some lang))
                is_stt_not_publish) as Hpub.
  unfold get_stt_reply, try_except. unfold bind at 1.
  destruct (_get_stt_from_file w fuel wav_file (Some lang) t)
    as [[[[a c] tr]|e|] t1]; simpl in Hemit, Hpub.
  - unfold_monad. rewrite !count_snoc, Hemit, Hpub. simpl. lia.
  - destruct (is_Exception e) eqn:He; [|exact He].
    unfold_monad. rewrite !count_snoc, Hemit, Hpub. simpl. lia.
  - exact I.
Qed.

(** X5: a get-stt request for an existing file is answered exactly once
    when the handler returns, and nothing is published to skills; no
    exception of class [Exception] leaves the handler. *)
Theorem get_stt_is_answered_once (w : World) (fuel : nat) (m : bus_message)
    (t : trace) :
  truthy (dict_get (msg_data m) "audio_file") = true ->
  isfile w t (dict_get (msg_data m) "audio_file") = Returns true ->
  match handle_get_stt w fuel m t with
  | (Ok _, t') =>
      count is_emit t' = S (count is_emit t) /\
      count is_publish t' = count is_publish t
  | (Raise e, _) => is_Exception e = false
  | (OutOfFuel, _) => True
  end.
Proof.
  intros Htrue Hfile. unfold handle_get_stt. unfold_monad.
  rewrite Htrue. unfold_monad. rewrite Hfile. unfold_monad.
  match goal with
  | |- context [get_stt_reply w fuel m ?i ?f ?l ?t0] =>
      pose proof (get_stt_reply_once w fuel m i f l t0) as H;
      destruct (get_stt_reply w fuel m i f l t0) as [[[]|e|] t']
  end; auto.
  rewrite !count_snoc in H. simpl in H. rewrite !Nat.add_0_r in H. exact H.
Qed.

Lemma get_stt_is_answered_once_witness :
  match handle_get_stt corrupt_studio 0 get_stt_without_lang [] with
  | (Ok _, t') =>
      count is_emit t' = S (count is_emit []) /\
      count is_publish t' = count is_publish []
  | (Raise e, _) => is_Exception e = false
  | (OutOfFuel, _) => True
  end.
Proof.
  apply (@get_stt_is_answered_once corrupt_studio 0 get_stt_without_lang []);
    reflexivity.
Defined.

(** X6: a file that exists but does not decode is a hard error of the
    transcription: no engine and no extractor is called, the error is
    logged and the one reply carries [repr] of the decoder's exception. *)
Theorem decode_failure_is_answered (w : World) (fuel : nat) (m : bus_message)
    (e : exn) (t : trace) :
  let wav_file_path := dict_get (msg_data m) "audio_file" in
  let ident := py_or (dict_get (msg_context m) "ident")
                 (PStr "neon.get_stt.response") in
  truthy wav_file_path = true ->
  isfile w t wav_file_path = Returns true ->
  decode w (t ++ [EvIsFile wav_file_path]) wav_file_path = Raises e ->
  is_Exception e = true ->
  handle_get_stt w fuel m t =
    (Ok tt,
     t ++ [EvIsFile wav_file_path; EvDecode wav_file_path;
           EvLog LError (str_exn e);
           EvEmit (Reply m ident [("error", PStr (repr_exn e))])]).
Proof.
  intros wav ident Htrue Hfile Hdec He.
  unfold handle_get_stt, get_stt_reply, _get_stt_from_file, stt_transcriptions.
  unfold_monad. fold wav ident. rewrite Htrue. unfold_monad. rewrite Hfile.
  unfold_monad. rewrite Hdec. unfold_monad. rewrite He.
  now rewrite <- !app_assoc.
Qed.

Lemma decode_failure_is_answered_witness :
  handle_get_stt corrupt_studio 0 get_stt_without_lang [] =
    (Ok tt,
     [] ++ [EvIsFile (PStr "sample.wav"); EvDecode (PStr "sample.wav");
            EvLog LError "Decoding failed";
            EvEmit (Reply get_stt_without_lang (PStr "neon.get_stt.response")
                      [("error", PStr "CouldntDecodeError('Decoding failed')")])]).
Proof.
  apply (@decode_failure_is_answered corrupt_studio 0 get_stt_without_lang
           could_not_decode []); reflexivity.
Defined.

(** X7: a get-stt request without [audio_file] gets the
    [audio_file not specified!] reply, but the handler does not stop
    there: [os.path.isfile] is called on [None] next, and what it raises
    leaves the handler uncaught, the [try] statement being further
    down. *)
Theorem missing_audio_file_reaches_isfile (w : World) (fuel : nat)
    (m : bus_message) (e : exn) (t : trace) :
  let ident := py_or (dict_get (msg_context m) "ident")
                 (PStr "neon.get_stt.response") in
  let replied :=
    t ++ [EvEmit (Reply m ident [("error", PStr "audio_file not specified!")])] in
  dict_lookup (msg_data m) "audio_file" = None ->
  isfile w replied PNone = Raises e ->
  handle_get_stt w fuel m t = (Raise e, replied ++ [EvIsFile PNone]).
Proof.
  intros ident replied Hnone Hfile.
  assert (dict_get (msg_data m) "audio_file" = PNone) as Hwav
    by (unfold dict_get, dict_get_default; now rewrite Hnone).
  subst replied ident.
  unfold handle_get_stt. rewrite Hwav. unfold_monad. cbn [truthy negb].
  unfold_monad. now rewrite Hfile.
Qed.

Lemma missing_audio_file_reaches_isfile_witness :
  handle_get_stt (studio false (PBool true) true true true 0) 0 get_stt_empty [] =
    (Raise (type_error "stat: path should be string, not NoneType"),
     ([] ++ [EvEmit (Reply get_stt_empty (PStr "neon.get_stt.response")
                       [("error", PStr "audio_file not specified!")])])
       ++ [EvIsFile PNone]).
Proof.
  apply (@missing_audio_file_reaches_isfile
           (studio false (PBool true) true true true 0) 0 get_stt_empty
           (type_error "stat: path should be string, not NoneType") []);
    reflexivity.
Defined.

(** X8: the successful query: for an existing file that a batch engine
    transcribes, the handler makes four calls in order (file check,
    decode, transcribe with the request's [lang], context extraction)
    and emits one reply, carrying the extractor's context and the
    engine's transcript list and no [error] entry; the reply type is the
    request's [ident], or [neon.get_stt.response] when it has none. *)
Theorem get_stt_replies_with_transcripts (w : World) (fuel : nat)
    (m : bus_message) (audio audio' parser_data transcriptions : pyval)
    (t : trace) :
  let wav_file_path := dict_get (msg_data m) "audio_file" in
  let lang := dict_get (msg_data m) "lang" in
  let ident := py_or (dict_get (msg_context m) "ident")
                 (PStr "neon.get_stt.response") in
  truthy wav_file_path = true ->
  isfile w t wav_file_path = Returns true ->
  API_STT w = false ->
  decode w (t ++ [EvIsFile wav_file_path]) wav_file_path = Returns audio ->
  transcribe w (t ++ [EvIsFile wav_file_path; EvDecode wav_file_path]) audio lang
    = Returns transcriptions ->
  get_context w (t ++ [EvIsFile wav_file_path; EvDecode wav_file_path;
                       EvTranscribe audio lang]) audio
    = Returns (audio', parser_data) ->
  handle_get_stt w fuel m t =
    (Ok tt,
     t ++ [EvIsFile wav_file_path; EvDecode wav_file_path;
           EvTranscribe audio lang; EvGetContext audio;
           EvEmit (Reply m ident [("parser_data", parser_data);
                                  ("transcripts", transcriptions)])]).
Proof.
  intros wav lang ident Htrue Hfile Hapi Hdec Htr Hctx.
  unfold handle_get_stt, get_stt_reply, _get_stt_from_file, stt_transcriptions.
  rewrite Hapi. unfold_monad. fold wav lang ident. rewrite Htrue. unfold_monad.
  rewrite Hfile. unfold_monad. rewrite Hdec. unfold_monad.
  rewrite <- !app_assoc. simpl app. rewrite Htr. unfold_monad.
  rewrite <- !app_assoc. simpl app. rewrite Hctx. unfold_monad.
  now rewrite <- !app_assoc.
Qed.

Lemma get_stt_replies_with_transcripts_witness :
  handle_get_stt (studio false (PBool true) true true true 0) 0 get_stt_german [] =
    (Ok tt,
     [] ++ [EvIsFile (PStr "sample.wav"); EvDecode (PStr "sample.wav");
            EvTranscribe (PObj "AudioData") (PStr "de-de");
            EvGetContext (PObj "AudioData");
            EvEmit (Reply get_stt_german (PStr "req-17")
                      [("parser_data", PDict []);
                       ("transcripts", PList [PStr "hello"])])]).
Proof.
  apply (@get_stt_replies_with_transcripts
           (studio false (PBool true) true true true 0) 0 get_stt_german
           (PObj "AudioData") (PObj "AudioData") (PDict [])
           (PList [PStr "hello"]) []); reflexivity.
Defined.

(** *** The injection form *)

(** For a request without [klat_data], [build_context] returns, and the
    context has an [ident]. *)
Lemma build_context_plain (w : World) (m : bus_message) (t : trace) :
  truthy (dict_get (msg_context m) "klat_data") = false ->
  exists ctx ident,
    build_context w m t = (Ok ctx, t ++ [EvTime; EvTime]) /\
    dict_lookup ctx "ident" = Some ident.
Proof.
  intros Hk. unfold build_context. unfold_monad. rewrite Hk.
  do 2 eexists. split; [now rewrite <- app_assoc|reflexivity].
Qed.

(** X9: without [klat_data], [build_context] reads the clock twice and
    returns a context that always has an [ident]: the request's when its
    context has the key, the second clock reading otherwise.  Its
    [source] is the request's, null when the request has none (the
    [speech_api] alternative is never taken), and no klat entry is
    carried over. *)
Theorem build_context_always_has_ident (w : World) (m : bus_message) (t : trace) :
  truthy (dict_get (msg_context m) "klat_data") = false ->
  exists ctx,
    build_context w m t = (Ok ctx, t ++ [EvTime; EvTime]) /\
    dict_lookup ctx "ident" =
      Some (dict_get_default (msg_context m) "ident" (time_time w (t ++ [EvTime]))) /\
    dict_lookup ctx "source" = Some (dict_get (msg_context m) "source") /\
    dict_has ctx "klat_data" = false /\
    dict_has ctx "nick_profiles" = false.
Proof.
  intros Hk. unfold build_context. unfold_monad. rewrite Hk.
  eexists. split; [now rewrite <- app_assoc|]. repeat split.
Qed.

Lemma build_context_always_has_ident_witness :
  exists ctx,
    build_context (studio false (PBool true) true true true 0)
      audio_input_plain [] = (Ok ctx, [] ++ [EvTime; EvTime]) /\
    dict_lookup ctx "ident" = Some (PFloat "1.5") /\
    dict_lookup ctx "source" = Some (PStr "mobile_app") /\
    dict_has ctx "klat_data" = false /\
    dict_has ctx "nick_profiles" = false.
Proof.
  apply (@build_context_always_has_ident
           (studio false (PBool true) true true true 0) audio_input_plain []).
  reflexivity.
Defined.

(** X10: the successful injection: once the transcription has returned
    and the context is built, the utterance is published with the
    engine's transcript list and the request's [lang] ([en-us] when it
    has none), and the reply to the requester carries the transcript
    list together with [skills_recv]: true when skills answered, false,
    after an error log, when they did not within the timeout. *)
Theorem audio_input_reports_skills_receipt (w : World) (fuel : nat)
    (m : bus_message) (audio parser_data transcriptions ident : pyval)
    (ctx : dict) (resp : option bus_message) (t t1 t2 : trace) :
  let reply_type := py_or (dict_get (msg_context m) "ident")
                      (PStr "neon.audio_input.response") in
  let published :=
    Message "recognizer_loop:utterance"
      [("utterances", transcriptions);
       ("lang", dict_get_default (msg_data m) "lang" (PStr "en-us"))] ctx in
  _get_stt_from_file w fuel (dict_get (msg_data m) "audio_file")
    (Some (dict_get (msg_data m) "lang")) t
    = (Ok (audio, parser_data, transcriptions), t1) ->
  build_context w (with_parser_data m parser_data) t1 = (Ok ctx, t2) ->
  dict_lookup ctx "ident" = Some ident ->
  wait_for_response w t2 published 10 = Returns resp ->
  handle_audio_input w fuel m t =
    (Ok tt,
     t2 ++ [EvWaitForResponse published 10]
        ++ match resp with
           | Some _ => []
           | None => [EvLog LError
                        ("Skills didn't handle " ++ py_str ident ++ "!")%string]
           end
        ++ [EvEmit (Reply (with_parser_data m parser_data) reply_type
                      [("parser_data", parser_data);
                       ("transcripts", transcriptions);
                       ("skills_recv",
                        PBool (match resp with Some _ => true | None => false end))])]).
Proof.
  intros reply_type published Hstt Hctx Hident Hwait.
  unfold handle_audio_input. fold reply_type.
  unfold try_except at 1. unfold bind at 1. rewrite Hstt.
  fold (with_parser_data m parser_data).
  unfold try_except at 1. unfold bind at 1. rewrite Hctx.
  unfold _emit_utterance_to_skills. unfold_monad.
  change (msg_data (with_parser_data m parser_data)) with (msg_data m).
  fold published. cbn [msg_context published]. rewrite Hident. unfold_monad.
  rewrite Hwait.
  destruct resp; unfold_monad; simpl; now rewrite <- !app_assoc.
Qed.

Lemma audio_input_reports_skills_receipt_witness :
  handle_audio_input (studio false (PBool true) true false true 0) 0
    audio_input_plain [] =
    (Ok tt,
     [EvDecode (PStr "sample.wav"); EvTranscribe (PObj "AudioData") PNone;
      EvGetContext (PObj "AudioData"); EvTime; EvTime]
       ++ [EvWaitForResponse
             (Message "recognizer_loop:utterance"
                [("utterances", PList [PStr "hello"]); ("lang", PStr "en-us")]
                plain_context) 10]
       ++ [EvLog LError "Skills didn't handle 1.5!"]
       ++ [EvEmit (Reply (with_parser_data audio_input_plain (PDict []))
                     (PStr "neon.audio_input.response")
                     [("parser_data", PDict []);
                      ("transcripts", PList [PStr "hello"]);
                      ("skills_recv", PBool false)])]).
Proof.
  apply (@audio_input_reports_skills_receipt
           (studio false (PBool true) true false true 0) 0 audio_input_plain
           (PObj "AudioData") (PDict []) (PList [PStr "hello"]) (PFloat "1.5")
           plain_context None []
           [EvDecode (PStr "sample.wav"); EvTranscribe (PObj "AudioData") PNone;
            EvGetContext (PObj "AudioData")]
           [EvDecode (PStr "sample.wav"); EvTranscribe (PObj "AudioData") PNone;
            EvGetContext (PObj "AudioData"); EvTime; EvTime]); reflexivity.
Defined.

(** X11: without [klat_data], an audio-input request whose transcription
    returned is published to skills exactly once, whatever the bus does
    next; when the handler returns, the requester has got exactly one
    reply; no exception of class [Exception] leaves the handler. *)
Theorem audio_input_publishes_once (w : World) (fuel : nat) (m : bus_message)
    (audio parser_data transcriptions : pyval) (t t1 : trace) :
  truthy (dict_get (msg_context m) "klat_data") = false ->
  _get_stt_from_file w fuel (dict_get (msg_data m) "audio_file")
    (Some (dict_get (msg_data m) "lang")) t
    = (Ok (audio, parser_data, transcriptions), t1) ->
  count is_publish (snd (handle_audio_input w fuel m t)) = S (count is_publish t) /\
  match fst (handle_audio_input w fuel m t) with
  | Ok _ => count is_emit (snd (handle_audio_input w fuel m t))
            = S (count is_emit t)
  | Raise e => is_Exception e = false
  | OutOfFuel => False
  end.
Proof.
  intros Hk Hstt.
  pose proof (only_count is_emit t
                (only_get_stt_from_file w fuel (dict_get (msg_data m) "audio_file")
                   (Some (dict_get (msg_data m) "lang")))
                is_stt_not_emit) as Hemit.
  pose proof (only_count is_publish t
                (only_get_stt_from_file w fuel (dict_get (msg_data m) "audio_file")
                   (Some (dict_get (msg_data m) "lang")))
                is_stt_not_publish) as Hpub.
  rewrite Hstt in Hemit, Hpub. simpl in Hemit, Hpub.
  assert (truthy (dict_get (msg_context (with_parser_data m parser_data))
                    "klat_data") = false) as Hk'
    by (unfold with_parser_data; simpl msg_context;
        rewrite dict_get_set_ne by discriminate; exact Hk).
  destruct (build_context_plain w (with_parser_data m parser_data) t1 Hk')
    as (ctx & ident & Hctx & Hident).
  unfold with_parser_data in Hctx.
  unfold handle_audio_input, _emit_utterance_to_skills. unfold_monad.
  rewrite Hstt. unfold_monad. rewrite Hctx. unfold_monad. cbn [msg_context].
  rewrite Hident. unfold_monad.
  match goal with
  | |- context [wait_for_response w ?t0 ?p 10] =>
      destruct (wait_for_response w t0 p 10) as [[r|]|e]
  end; unfold_monad.
  - count_events. split; lia.
  - count_events. split; lia.
  - destruct (is_Exception e) eqn:He; unfold_monad; rewrite ?He; count_events;
      split; try lia; exact He.
Qed.

Lemma audio_input_publishes_once_witness :
  let w := studio false (PBool true) true false true 0 in
  count is_publish (snd (handle_audio_input w 0 audio_input_plain []))
    = S (count is_publish []) /\
  match fst (handle_audio_input w 0 audio_input_plain []) with
  | Ok _ => count is_emit (snd (handle_audio_input w 0 audio_input_plain []))
            = S (count is_emit [])
  | Raise e => is_Exception e = false
  | OutOfFuel => False
  end.
Proof.
  apply (@audio_input_publishes_once
           (studio false (PBool true) true false true 0) 0 audio_input_plain
           (PObj "AudioData") (PDict []) (PList [PStr "hello"]) []
           [EvDecode (PStr "sample.wav"); EvTranscribe (PObj "AudioData") PNone;
            EvGetContext (PObj "AudioData")]); reflexivity.
Defined.

(** *** The legacy klat transport *)

Ltac destruct_matches_in H :=
  repeat match type of H with
         | context [match ?x with _ => _ end] => destruct x eqn:?
         end.



(** What [handle_input_from_klat] does with a transcript list that has a
    first entry. *)
Lemma klat_publishes_list (w : World) (m : bus_message) (loc : klat_locals)
    (audio_context first : pyval) (more : list pyval) (t : trace) :
  exists published rest,
    msg_data published =
      [("utterances", PList (first :: more)); ("lang", stt_language loc)] /\
    dict_lookup (msg_context published) "audio_parser_data" = Some audio_context /\
    dict_lookup (msg_context published) "cc_data" =
      Some (PDict [("speak_execute", first); ("raw_utterance", first)]) /\
    snd (klat_publish w m loc audio_context (PList (first :: more)) t) =
      t ++ [EvTime;
            EvLog LDebug "Send server request to skills for processing";
            EvWaitForResponse published 10] ++ rest.
Proof.
  unfold klat_publish, _emit_utterance_to_skills. unfold_monad.
  cbn [truthy negb py_first]. unfold_monad.
  cbn [dict_lookup msg_context String.eqb Ascii.eqb Bool.eqb]. unfold_monad.
  match goal with
  | |- context [EvWaitForResponse ?p 10] => exists p
  end.
  match goal with
  | |- context [wait_for_response w ?t0 ?p 10] =>
      destruct (wait_for_response w t0 p 10) as [[r|]|e]
  end; unfold_monad;
    eexists; repeat (split; [reflexivity|]); rewrite <- !app_assoc; reflexivity.
Qed.

(** X13: when the transcription of a klat request raises (decoder,
    engine or extractor), the request is not dropped: the exception is
    logged and the text that came with the request stands in for the
    transcript list, without audio context; this one-entry list is what
    is published. *)
Theorem klat_falls_back_to_shout_text (w : World) (fuel : nat) (m : bus_message)
    (loc : klat_locals) (e : exn) (t t1 t2 : trace) :
  let raw_audio := dict_get (msg_data m) "raw_audio" in
  klat_prelude w m t = (Ok loc, t1) ->
  truthy raw_audio = true ->
  _get_stt_from_file w fuel raw_audio (Some (stt_language loc))
    (t1 ++ [EvLog LDebug (py_str raw_audio)]) = (Raise e, t2) ->
  is_Exception e = true ->
  exists published rest,
    msg_data published =
      [("utterances", PList [dict_get (msg_data m) "shout_text"]);
       ("lang", stt_language loc)] /\
    dict_lookup (msg_context published) "audio_parser_data" = Some PNone /\
    snd (handle_input_from_klat w fuel m t) =
      t2 ++ [EvLog LError (str_exn e); EvTime;
             EvLog LDebug "Send server request to skills for processing";
             EvWaitForResponse published 10] ++ rest.
Proof.
  intros raw Hpre Hraw Hstt He.
  destruct (klat_publishes_list w m loc PNone (dict_get (msg_data m) "shout_text")
              [] (t2 ++ [EvLog LError (str_exn e)]))
    as (published & rest & Hdata & Hctx & _ & Hrun).
  exists published, rest. split; [exact Hdata|]. split; [exact Hctx|].
  unfold handle_input_from_klat. unfold bind at 1. rewrite Hpre.
  unfold klat_transcriptions. fold raw. rewrite Hraw.
  unfold bind at 1. unfold log at 1, tell. unfold try_except. unfold bind at 1.
  unfold bind at 1. rewrite Hstt, He. unfold_monad.
  rewrite Hrun. now rewrite <- !app_assoc.
Qed.

Lemma klat_falls_back_to_shout_text_witness :
  exists published rest,
    msg_data published =
      [("utterances", PList [PStr "hello there"]); ("lang", PStr "en")] /\
    dict_lookup (msg_context published) "audio_parser_data" = Some PNone /\
    snd (handle_input_from_klat corrupt_studio 0 klat_mobile []) =
      [EvUpdateProfile (PStr "guest"); EvGetProfile (PStr "guest");
       EvGetNickProfiles PNone; EvTime; EvLog LDebug "shout.wav";
       EvDecode (PStr "shout.wav")] ++
      [EvLog LError "Decoding failed"; EvTime;
       EvLog LDebug "Send server request to skills for processing";
       EvWaitForResponse published 10] ++ rest.
Proof.
  apply (@klat_falls_back_to_shout_text corrupt_studio 0 klat_mobile
           mobile_locals could_not_decode []
           [EvUpdateProfile (PStr "guest"); EvGetProfile (PStr "guest");
            EvGetNickProfiles PNone; EvTime]); reflexivity.
Defined.





(** X16: the profiles of the conversation are asked for once with the
    [cid_nicks] of the request; a [TypeError] there is answered by one
    second call for the sender alone, whose result is kept, and any
    other exception leaves the handler at once. *)
Theorem nick_profiles_retry_on_type_error (w : World) (m : bus_message)
    (profile speech : dict) (e : exn) (t : trace) :
  let nick := dict_get (msg_data m) "user" in
  let cid_nicks := dict_get (msg_data m) "cid_nicks" in
  let t2 := t ++ [EvUpdateProfile nick; EvGetProfile nick] in
  update_profile_for_nick w t nick = Returns tt ->
  get_profile w (t ++ [EvUpdateProfile nick]) nick = Returns (PDict profile) ->
  dict_lookup profile "speech" = Some (PDict speech) ->
  get_nick_profiles w t2 cid_nicks = Raises e ->
  (is_TypeError e = false ->
   klat_prelude w m t = (Raise e, t2 ++ [EvGetNickProfiles cid_nicks])) /\
  (is_TypeError e = true ->
   forall np,
     get_nick_profiles w (t2 ++ [EvGetNickProfiles cid_nicks]) (PList [nick])
       = Returns np ->
     exists loc,
       klat_prelude w m t =
         (Ok loc, t2 ++ [EvGetNickProfiles cid_nicks;
                         EvGetNickProfiles (PList [nick]); EvTime]) /\
       nick_profiles loc = np).
Proof.
  intros nick cid t2 Hup Hprof Hspeech Hnp.
  assert (Ht2 : (t ++ [EvUpdateProfile nick]) ++ [EvGetProfile nick] = t2)
    by (unfold t2; now rewrite <- app_assoc).
  split.
  - intros He. unfold klat_prelude. unfold_monad. fold nick cid.
    rewrite Hup, Hprof. unfold py_getitem, py_get_default. cbn [py_get].
    unfold getitem. rewrite Hspeech. unfold_monad.
    rewrite Ht2, Hnp, He. reflexivity.
  - intros He np Hretry. eexists. split.
    + unfold klat_prelude. unfold_monad. fold nick cid.
      rewrite Hup, Hprof. unfold py_getitem, py_get_default. cbn [py_get].
      unfold getitem. rewrite Hspeech. unfold_monad.
      rewrite Ht2, Hnp, He, Hretry. rewrite <- !app_assoc. reflexivity.
    + reflexivity.
Qed.

Lemma nick_profiles_retry_on_type_error_witness :
  let t2 := [] ++ [EvUpdateProfile (PStr "guest"); EvGetProfile (PStr "guest")] in
  (is_TypeError (type_error "'NoneType' object is not iterable") = false ->
   klat_prelude broken_studio klat_mobile [] =
     (Raise (type_error "'NoneType' object is not iterable"),
      t2 ++ [EvGetNickProfiles PNone])) /\
  (is_TypeError (type_error "'NoneType' object is not iterable") = true ->
   forall np,
     get_nick_profiles broken_studio (t2 ++ [EvGetNickProfiles PNone])
       (PList [PStr "guest"]) = Returns np ->
     exists loc,
       klat_prelude broken_studio klat_mobile [] =
         (Ok loc, t2 ++ [EvGetNickProfiles PNone;
                         EvGetNickProfiles (PList [PStr "guest"]); EvTime]) /\
       nick_profiles loc = np).
Proof.
  apply (@nick_profiles_retry_on_type_error broken_studio klat_mobile
           [("speech", PDict [])] [] (type_error "'NoneType' object is not iterable")
           []); reflexivity.
Defined.

(** *** Utterances of the listener *)









(** X19: a [data] field of the event is merged into the context before
    the [ident] of the event is written, so the event's [ident] is the
    one published whatever the merged data holds; a failure of the merge
    leaves the handler with nothing published. *)
Theorem handle_utterance_ident_overrides_data (w : World) (event : dict)
    (utterances raw_audio data : pyval) (t : trace) :
  let context :=
    listener_context_of raw_audio (dict_get_default event "timing" (PDict [])) in
  let logged := t ++ [EvLog LInfo ("Utterance: " ++ py_str utterances)] in
  dict_lookup event "utterances" = Some utterances ->
  dict_lookup event "raw_audio" = Some raw_audio ->
  dict_lookup event "data" = Some data ->
  (forall e, merge_dict w context data = Raises e ->
             handle_utterance w event t = (Raise e, logged)) /\
  (forall merged ident,
      merge_dict w context data = Returns merged ->
      dict_lookup event "ident" = Some ident ->
      exists published rest,
        msg_context published = dict_set merged "ident" ident /\
        dict_lookup (msg_context published) "ident" = Some ident /\
        snd (handle_utterance w event t) =
          logged ++ [EvWaitForResponse published 10] ++ rest).
Proof.
  intros context logged Hu Ha Hd.
  unfold context, listener_context_of, dict_get_default. clear context. split.
  - intros e Hm. unfold handle_utterance, dict_pop_default, dict_get_default.
    unfold_monad.
    rewrite Hu. unfold_monad. rewrite Ha. unfold_monad.
    unfold dict_has. rewrite !dict_lookup_remove_ne by discriminate.
    rewrite Hd. unfold_monad. rewrite ?dict_lookup_remove_ne by discriminate.
    rewrite ?Hd. unfold_monad. rewrite Hm. reflexivity.
  - intros merged ident Hm Hi.
    exists (Message "recognizer_loop:utterance"
              (dict_remove
                 (dict_remove
                    (dict_remove (dict_remove event "raw_audio") "timing") "data")
                 "ident")
              (dict_set merged "ident" ident)).
    assert (Hid : dict_lookup (dict_set merged "ident" ident) "ident" = Some ident)
      by apply dict_lookup_set_eq.
    cbn [msg_context].
    unfold handle_utterance, dict_pop_default, _emit_utterance_to_skills,
      dict_get_default.
    unfold_monad. rewrite Hu. unfold_monad. rewrite Ha. unfold_monad.
    unfold dict_has. rewrite !dict_lookup_remove_ne by discriminate.
    rewrite Hd. unfold_monad. rewrite ?dict_lookup_remove_ne by discriminate.
    rewrite ?Hd. unfold_monad.
    rewrite Hm. unfold_monad. rewrite !dict_lookup_remove_ne by discriminate.
    rewrite Hi. unfold_monad. cbn [msg_context]. rewrite Hid. unfold_monad.
    match goal with
    | |- context [wait_for_response w ?t0 ?p 10] =>
        destruct (wait_for_response w t0 p 10) as [[r|]|e]
    end; unfold_monad; eexists; (split; [reflexivity|]); (split; [reflexivity|]);
      unfold logged; rewrite <- !app_assoc; reflexivity.
Qed.

Lemma handle_utterance_ident_overrides_data_witness :
  let context :=
    listener_context_of (PObj "AudioData")
      (dict_get_default heard_event_with_data "timing" (PDict [])) in
  let data := PDict [("ident", PStr "from data"); ("user", PStr "guest")] in
  let logged :=
    [] ++ [EvLog LInfo ("Utterance: " ++ py_str (PList [PStr "hello"]))] in
  (forall e, merge_dict (studio false (PBool true) true true true 0) context data
               = Raises e ->
             handle_utterance (studio false (PBool true) true true true 0)
               heard_event_with_data [] = (Raise e, logged)) /\
  (forall merged ident,
      merge_dict (studio false (PBool true) true true true 0) context data
        = Returns merged ->
      dict_lookup heard_event_with_data "ident" = Some ident ->
      exists published rest,
        msg_context published = dict_set merged "ident" ident /\
        dict_lookup (msg_context published) "ident" = Some ident /\
        snd (handle_utterance (studio false (PBool true) true true true 0)
               heard_event_with_data []) =
          logged ++ [EvWaitForResponse published 10] ++ rest).
Proof.
  apply (@handle_utterance_ident_overrides_data
           (studio false (PBool true) true true true 0) heard_event_with_data
           (PList [PStr "hello"]) (PObj "AudioData")
           (PDict [("ident", PStr "from data"); ("user", PStr "guest")]) []);
    reflexivity.
Defined.

(** *** Forwarding of listener events *)

(** X20: each forwarding handler (record begin and end, no internet,
    awoken, unknown, speak) returns after sending exactly one message,
    which carries the listener's routing context; before the message
    there are at most log lines, and nothing else is called. *)
Theorem forwarders_emit_once_with_listener_context (event : dict)
    (h : M unit) (t : trace) :
  In h (forwarders event) ->
  exists logs out,
    h t = (Ok tt, t ++ logs ++ [EvEmit (New out)]) /\
    forallb is_log logs = true /\
    msg_context out = listener_context /\
    (msg_data out = [] \/ msg_data out = event) /\
    count is_bus (snd (h t)) = S (count is_bus t).
Proof.
  assert (Hlogged : forall lvl text out,
             msg_context out = listener_context ->
             msg_data out = [] \/ msg_data out = event ->
             exists logs out',
               (Ok tt, (t ++ [EvLog lvl text]) ++ [EvEmit (New out)]) =
                 (Ok tt, t ++ logs ++ [EvEmit (New out')]) /\
               forallb is_log logs = true /\
               msg_context out' = listener_context /\
               (msg_data out' = [] \/ msg_data out' = event) /\
               count is_bus ((t ++ [EvLog lvl text]) ++ [EvEmit (New out)]) =
                 S (count is_bus t)).
  { intros lvl text out Hc Hd. exists [EvLog lvl text], out.
    rewrite <- app_assoc, !count_app. repeat split; auto.
    unfold count. simpl. lia. }
  assert (Hbare : forall out,
             msg_context out = listener_context ->
             msg_data out = [] \/ msg_data out = event ->
             exists logs out',
               (Ok tt, t ++ [EvEmit (New out)]) =
                 (Ok tt, t ++ logs ++ [EvEmit (New out')]) /\
               forallb is_log logs = true /\
               msg_context out' = listener_context /\
               (msg_data out' = [] \/ msg_data out' = event) /\
               count is_bus (t ++ [EvEmit (New out)]) = S (count is_bus t)).
  { intros out Hc Hd. exists [], out. rewrite !count_app. repeat split; auto.
    unfold count. simpl. lia. }
  unfold forwarders. simpl.
  intros [<-|[<-|[<-|[<-|[<-|[<-|[]]]]]]];
    unfold handle_record_begin, handle_record_end, handle_no_internet,
      handle_awoken, handle_unknown, handle_speak; unfold_monad; cbn [snd];
    first [apply Hlogged | apply Hbare]; auto.
Qed.

Lemma forwarders_emit_once_with_listener_context_witness :
  exists logs out,
    handle_speak spoken_event [] = (Ok tt, [] ++ logs ++ [EvEmit (New out)]) /\
    forallb is_log logs = true /\
    msg_context out = listener_context /\
    (msg_data out = [] \/ msg_data out = spoken_event) /\
    count is_bus (snd (handle_speak spoken_event [])) = S (count is_bus []).
Proof.
  apply (@forwarders_emit_once_with_listener_context spoken_event
           (handle_speak spoken_event) []).
  simpl. tauto.
Defined.

(** X21: a hotword event is forwarded whole, [listen] flag included, as
    [recognizer_loop:wakeword] when its [listen] field is truthy and as
    [recognizer_loop:hotword] otherwise; an event whose [hotword] is
    missing or is not a string raises before anything is logged or
    sent. *)
Theorem hotword_is_forwarded_by_listen_flag (event : dict) (t : trace) :
  let listen := truthy (dict_get_default event "listen" (PBool false)) in
  (forall name,
      dict_lookup event "hotword" = Some (PStr name) ->
      handle_hotword event t =
        (Ok tt,
         t ++ [EvLog LInfo ((if listen then "Wakeword Detected: "
                             else "Hotword Detected: ") ++ name);
               EvEmit (New (Message (if listen then "recognizer_loop:wakeword"
                                     else "recognizer_loop:hotword")
                              event listener_context))])) /\
  ((forall name, dict_lookup event "hotword" <> Some (PStr name)) ->
   exists e,
     handle_hotword event t = (Raise e, t) /\
     (dict_lookup event "hotword" = None -> e = key_error "hotword") /\
     (dict_lookup event "hotword" <> None -> exn_cls e = TypeError)).
Proof.
  intros listen. unfold handle_hotword. fold listen. split.
  - intros name H. destruct listen; cbn [negb]; unfold_monad; rewrite H;
      unfold py_concat; unfold_monad; rewrite <- app_assoc; reflexivity.
  - intros H. destruct (dict_lookup event "hotword") as [v|] eqn:Hv.
    + destruct v; try (now elim (H s));
        (destruct listen; cbn [negb]; unfold_monad; rewrite Hv;
         unfold py_concat; unfold_monad;
         eexists; (split; [reflexivity|(split; [discriminate|reflexivity])])).
    + destruct listen; cbn [negb]; unfold_monad; rewrite Hv; unfold_monad;
        eexists; (split; [reflexivity|(split; [reflexivity|congruence])]).
Qed.

(** *** Configuration *)

(** X22: when the configuration has no [listener] section, the
    audio-output handlers do not skip muting quietly: both raise
    [AttributeError] on the lookup of [mute_during_output], and the
    recognizer loop is not touched. *)
Theorem audio_handlers_need_listener_section (w : World) (m : bus_message)
    (t : trace) :
  dict_lookup (config w) "listener" = None ->
  handle_audio_start w m t =
    (Raise (attribute_error "'NoneType' object has no attribute 'get'"), t) /\
  handle_audio_end w m t =
    (Raise (attribute_error "'NoneType' object has no attribute 'get'"), t).
Proof.
  intros H. unfold handle_audio_start, handle_audio_end, mute_during_output,
    dict_get, dict_get_default. rewrite H. split; reflexivity.
Qed.

Lemma audio_handlers_need_listener_section_witness :
  handle_audio_start deaf_studio audio_output_start [] =
    (Raise (attribute_error "'NoneType' object has no attribute 'get'"), []) /\
  handle_audio_end deaf_studio audio_output_start [] =
    (Raise (attribute_error "'NoneType' object has no attribute 'get'"), []).
Proof.
  apply (@audio_handlers_need_listener_section deaf_studio audio_output_start []).
  reflexivity.
Defined.

(** *** Requests that share the streaming engine *)

(** X23: under any schedule, while one request is between the
    acquisition and the release of the lock, no other request is, and a
    request that waits for the lock cannot take a step. *)
Theorem one_request_inside_the_block (requests : list (World * pyval))
    (schedule : list nat) (i j : nat) (thi thj : thread) :
  let s := run schedule (init requests) in
  nth_error (threads s) i = Some thi ->
  nth_error (threads s) j = Some thj ->
  in_section (th_pc thi) = true ->
  j <> i ->
  in_section (th_pc thj) = false /\
  (th_pc thj = AtLock -> step j s = None).
Proof.
  intros s Hi Hj Hin Hne.
  assert (Inv : invariant s)
    by (apply run_preserves_invariant, init_invariant).
  assert (Hlock : lock s = Some i) by (now apply (@inv_section s Inv i thi Hi)).
  split.
  - destruct (in_section (th_pc thj)) eqn:E; [|reflexivity].
    apply (@inv_section s Inv j thj Hj) in E. congruence.
  - intros Hpc. unfold step. rewrite Hj, Hpc. simpl. now rewrite Hlock.
Qed.

Lemma one_request_inside_the_block_witness :
  let s := run [1; 1] (init two_requests) in
  in_section
    (th_pc (mkThread (studio true (PBool true) true true true 1) (PStr "en-us")
              AtLock)) = false /\
  (th_pc (mkThread (studio true (PBool true) true true true 1) (PStr "en-us")
            AtLock) = AtLock ->
   step 0 s = None).
Proof.
  apply (@one_request_inside_the_block two_requests [1; 1] 1 0
           (mkThread (studio true (PBool true) true true true 3) (PStr "de-de")
              AtRead)
           (mkThread (studio true (PBool true) true true true 1) (PStr "en-us")
              AtLock));
    first [reflexivity | discriminate].
Defined.

(** X24: the lock never stops every request at once: in any state a run
    can reach, whatever the engine and the file streams answer, as long
    as some request has not left the block, some request can take a
    step, which makes one more call. *)
Theorem lock_never_blocks_everyone (requests : list (World * pyval))
    (schedule : list nat) (i : nat) (th : thread) :
  let s := run schedule (init requests) in
  nth_error (threads s) i = Some th ->
  is_done (th_pc th) = false ->
  exists j s',
    step j s = Some s' /\
    List.length (calls s') = S (List.length (calls s)).
Proof.
  intros s Hth Hnd.
  assert (Inv : invariant s)
    by (apply run_preserves_invariant, init_invariant).
  destruct (@some_request_can_move s i th Inv Hth Hnd) as (j & s' & Hstep).
  exists j, s'. split; [exact Hstep|].
  destruct (step_next _ _ Hstep) as (th' & e & p' & _ & _ & _ & Hcalls).
  rewrite Hcalls, length_app. simpl. lia.
Qed.

Lemma lock_never_blocks_everyone_witness :
  let s := run [1; 1] (init two_requests) in
  exists j s', step j s = Some s' /\
               List.length (calls s') = S (List.length (calls s)).
Proof.
  apply (@lock_never_blocks_everyone two_requests [1; 1] 0
           (mkThread (studio true (PBool true) true true true 1) (PStr "en-us")
              AtLock)); reflexivity.
Defined.

Lemma measure_init (K : nat) (requests : list (World * pyval)) :
  measure K (init requests) = List.length requests * (2 * K + 7).
Proof.
  unfold measure, init. cbn [threads calls map]. rewrite map_map.
  induction requests as [|r l IH]; [reflexivity|].
  change (list_sum (2 * K + 7 :: map (fun x : World * pyval =>
                      rank K (reads_in_cycle [])
                        (th_pc (mkThread (fst x) (snd x) AtLock))) l)
          = S (List.length l) * (2 * K + 7)).
  change (list_sum (?a :: ?x)) with (a + list_sum x).
  rewrite IH. lia.
Qed.

Lemma run_spends_measure (K : nat) (schedule : list nat) : forall s,
  invariant s -> all_cooperative K s -> all_unfailed s ->
  List.length (calls (run schedule s)) + measure K (run schedule s)
    <= List.length (calls s) + measure K s.
Proof.
  induction schedule as [|i rest IH]; intros s Inv Hcoop Hok; [simpl; lia|].
  simpl. destruct (step i s) as [s'|] eqn:Hstep; [|now apply IH].
  destruct (@step_decreases K i s s' Inv Hcoop Hok Hstep) as (Hlt & Hcoop' & Hok').
  destruct (step_next _ _ Hstep) as (th' & e & p' & _ & _ & _ & Hcalls).
  assert (Inv' : invariant s') by (eapply step_preserves_invariant; eassumption).
  specialize (IH s' Inv' Hcoop' Hok').
  rewrite Hcalls, length_app in IH. simpl in IH. lia.
Qed.

(** X25: when the engine answers and every file stream ends within [K]
    chunks, [N] requests make at most [N * (2 * K + 7)] calls between
    them, lock operations included, however they are scheduled and
    however long the schedule is; and no request ends in an exception. *)
Theorem cooperative_requests_make_bounded_calls (K : nat)
    (requests : list (World * pyval)) (schedule : list nat) :
  (forall r, In r requests -> cooperative K (fst r)) ->
  let s := run schedule (init requests) in
  List.length (calls s) <= List.length requests * (2 * K + 7) /\
  all_unfailed s.
Proof.
  intros Hcoop s.
  destruct (@init_cooperative K requests Hcoop) as [Hc Hu].
  pose proof (@run_spends_measure K schedule (init requests)
                (init_invariant requests) Hc Hu) as Hb.
  rewrite measure_init in Hb. cbn [init calls List.length] in Hb.
  split.
  - fold s in Hb. lia.
  - apply (@run_stays_unfailed K schedule (init requests)
             (init_invariant requests) Hc Hu).
Qed.

Lemma cooperative_requests_make_bounded_calls_witness :
  let s := run alternating (init two_requests) in
  List.length (calls s) <= List.length two_requests * (2 * 3 + 7) /\
  all_unfailed s.
Proof.
  apply (@cooperative_requests_make_bounded_calls 3 two_requests alternating).
  intros r [<-|[<-|[]]]; apply studio_cooperative; lia.
Defined.

(** X26: the scheduler's view of a request and the sequential code
    agree: whenever [with lock: stream_start; feed loop; stream_stop]
    comes to an end, a request scheduled alone makes the same calls in
    the same order and ends with the same transcripts or the same
    exception, the lock free again. *)
Theorem lock_block_runs_as_scheduled (w : World) (lang : pyval) (fuel : nat)
    (t : trace) :
  fst (with_lock (stream_cycle w fuel lang) t) <> OutOfFuel ->
  exists k r,
    run (repeat 0 k) (alone w lang false AtLock t) =
      alone w lang false (Done r) (snd (with_lock (stream_cycle w fuel lang) t)) /\
    match r with
    | Returns v => fst (with_lock (stream_cycle w fuel lang) t) = Ok v
    | Raises e => fst (with_lock (stream_cycle w fuel lang) t) = Raise e
    end.
Proof.
  intros Hfuel. pose proof (alone_refines w lang fuel t) as H.
  destruct (with_lock (stream_cycle w fuel lang) t) as [[v|e|] t'];
    cbn [fst snd] in *.
  - destruct H as (k & Hk). now exists k, (Returns v).
  - destruct H as (k & Hk). now exists k, (Raises e).
  - now elim Hfuel.
Qed.

Lemma lock_block_runs_as_scheduled_witness :
  let w := studio true (PBool true) true true true 1 in
  exists k r,
    run (repeat 0 k) (alone w (PStr "en-us") false AtLock []) =
      alone w (PStr "en-us") false (Done r)
        (snd (with_lock (stream_cycle w 2 (PStr "en-us")) [])) /\
    match r with
    | Returns v => fst (with_lock (stream_cycle w 2 (PStr "en-us")) []) = Ok v
    | Raises e => fst (with_lock (stream_cycle w 2 (PStr "en-us")) []) = Raise e
    end.
Proof.
  apply (@lock_block_runs_as_scheduled (studio true (PBool true) true true true 1)
           (PStr "en-us") 2 []).
  discriminate.
Defined.
